(** * Row-level security, triggers and cascades of the restaurant menu store

    A shallow embedding of the PostgreSQL schema of the menu publishing
    tool (tables, constraints, [has_role], the row-level-security
    policies, the [handle_updated_at] trigger and the [ON DELETE CASCADE]
    references), of the migration that replaces the [user_roles] read
    policy, of the public client queries [fetchRestaurants] and
    [fetchRestaurantData], and of the admin page's [checkAdminAccess].

    Conventions.  A table is the list of its rows.  A nullable column is
    an [option]; SQL's three-valued logic is written out ([sql_bool]).
    [now()] and [gen_random_uuid()] are inputs of each statement.  A
    statement either fails and leaves the database as it was, or yields
    the next database. *)

From Stdlib Require Import ZArith NArith List Bool String Ascii Lia Sorted Permutation.
Import ListNotations.

Local Open Scope string_scope.
Local Open Scope Z_scope.

(** ** SQL values *)

Definition uuid := N.
Definition timestamptz := Z.

(** [CREATE TYPE public.app_role AS ENUM ('admin', 'manager', 'user')] *)
Inductive app_role : Type := admin | manager | user.

Definition app_role_eqb (a b : app_role) : bool :=
  match a, b with
  | admin, admin | manager, manager | user, user => true
  | _, _ => false
  end.

(** A boolean expression of SQL evaluates to TRUE, FALSE or NULL. *)
Definition sql_bool := option bool.

(** [a = b] on nullable operands: NULL as soon as one side is NULL. *)
Definition sql_eq {A : Type} (eqb : A -> A -> bool) (a b : option A) : sql_bool :=
  match a, b with
  | Some x, Some y => Some (eqb x y)
  | _, _ => None
  end.

Definition sql_or (a b : sql_bool) : sql_bool :=
  match a, b with
  | Some true, _ | _, Some true => Some true
  | Some false, Some false => Some false
  | _, _ => None
  end.

Definition sql_and (a b : sql_bool) : sql_bool :=
  match a, b with
  | Some false, _ | _, Some false => Some false
  | Some true, Some true => Some true
  | _, _ => None
  end.

(** A WHERE clause, a USING clause and a WITH CHECK clause keep a row
    only when the expression is TRUE; NULL counts as not satisfied. *)
Definition is_true (b : sql_bool) : bool :=
  match b with
  | Some true => true
  | _ => false
  end.

(** *** DECIMAL(10, 2)

    A decimal literal sent by a client is [mantissa / 10 ^ scale].  The
    column keeps two fractional digits (rounding half away from zero)
    and at most eight integral digits; a stored number is counted in
    hundredths.  Besides numbers the type has the special value NaN,
    which the column stores as it is, and the infinities, which a column
    with a precision refuses. *)
Record decimal : Type := { mantissa : Z; scale : nat }.

Inductive numeric_literal : Type :=
  | literal (d : decimal)
  | literal_NaN
  | literal_Infinity (negative : bool).

Inductive numeric : Type :=
  | NaN
  | hundredths (h : Z).

Definition round_half_away (m q : Z) : Z :=
  Z.sgn m * ((Z.abs m + q / 2) / q).

Definition to_hundredths (d : decimal) : Z :=
  match scale d with
  | O => mantissa d * 100
  | S O => mantissa d * 10
  | S (S k) => round_half_away (mantissa d) (10 ^ Z.of_nat k)
  end.

Definition numeric_10_2 (v : numeric_literal) : option numeric :=
  match v with
  | literal d =>
      let h := to_hundredths d in
      if Z.abs h <? 10 ^ 10 then Some (hundredths h) else None
  | literal_NaN => Some NaN
  | literal_Infinity _ => None
  end.

(** INTEGER is a 32-bit signed column. *)
Definition int4_ok (z : Z) : bool := (- 2 ^ 31 <=? z) && (z <? 2 ^ 31).

(** ** Outcome of a statement *)

Inductive sql_error : Type :=
  | not_null_violation
  | numeric_value_out_of_range
  | unique_violation
  | foreign_key_violation
  | row_security_violation.

Inductive result (A : Type) : Type :=
  | Ok (a : A)
  | Err (e : sql_error).
Arguments Ok {A}.
Arguments Err {A}.

Definition bind {A B : Type} (r : result A) (k : A -> result B) : result B :=
  match r with
  | Ok a => k a
  | Err e => Err e
  end.

Notation "x <- r ;; k" := (bind r (fun x => k))
  (at level 61, r at next level, right associativity).

(** A column of an INSERT column list or of an UPDATE SET list: absent
    ([None]) or given a value. *)
Definition given {A : Type} (v : option A) (otherwise : A) : A :=
  match v with
  | Some x => x
  | None => otherwise
  end.

(** A NOT NULL column without default must be given on INSERT. *)
Definition required {A : Type} (v : option A) : result A :=
  match v with
  | Some x => Ok x
  | None => Err not_null_violation
  end.

Definition store_price (v : numeric_literal) : result numeric :=
  match numeric_10_2 v with
  | Some h => Ok h
  | None => Err numeric_value_out_of_range
  end.

Definition store_integer (v : option Z) : result (option Z) :=
  match v with
  | Some z => if int4_ok z then Ok v else Err numeric_value_out_of_range
  | None => Ok None
  end.

(** Tables with an [updated_at] column. *)
Class Timestamped (A : Type) : Type := {
  set_updated_at : option timestamptz -> A -> A
}.

(** ** Tables

    Each module holds the row type [t] of a table, the column values
    [values] a client sends with an INSERT or an UPDATE, the row an
    INSERT builds from them ([new_row], with the column defaults) and the
    row an UPDATE's SET list makes of an existing row ([assign]). *)

(** [CREATE TABLE public.restaurants] *)
Module Restaurant.
Record t : Type := mk {
  id : uuid;
  name : string;
  slug : string;
  description : option string;
  logo_url : option string;
  banner_image_url : option string;
  theme_color : option string;
  background_color : option string;
  contact_phone : option string;
  contact_email : option string;
  address : option string;
  is_active : option bool;
  created_at : option timestamptz;
  updated_at : option timestamptz
}.

Record values : Type := mkvalues {
  set_id : option uuid;
  set_name : option string;
  set_slug : option string;
  set_description : option (option string);
  set_logo_url : option (option string);
  set_banner_image_url : option (option string);
  set_theme_color : option (option string);
  set_background_color : option (option string);
  set_contact_phone : option (option string);
  set_contact_email : option (option string);
  set_address : option (option string);
  set_is_active : option (option bool);
  set_created_at : option (option timestamptz);
  set_updated_at : option (option timestamptz)
}.

Definition nothing : values :=
  mkvalues None None None None None None None None None None None None None None.

Definition new_row (now : timestamptz) (fresh : uuid) (v : values) : result t :=
  n <- required (set_name v) ;;
  s <- required (set_slug v) ;;
  Ok (mk (given (set_id v) fresh) n s
         (given (set_description v) None)
         (given (set_logo_url v) None)
         (given (set_banner_image_url v) None)
         (given (set_theme_color v) (Some "#FF6B35"))
         (given (set_background_color v) (Some "#FFF5F0"))
         (given (set_contact_phone v) None)
         (given (set_contact_email v) None)
         (given (set_address v) None)
         (given (set_is_active v) (Some true))
         (given (set_created_at v) (Some now))
         (given (set_updated_at v) (Some now))).

Definition assign (v : values) (old : t) : result t :=
  Ok (mk (given (set_id v) (id old))
         (given (set_name v) (name old))
         (given (set_slug v) (slug old))
         (given (set_description v) (description old))
         (given (set_logo_url v) (logo_url old))
         (given (set_banner_image_url v) (banner_image_url old))
         (given (set_theme_color v) (theme_color old))
         (given (set_background_color v) (background_color old))
         (given (set_contact_phone v) (contact_phone old))
         (given (set_contact_email v) (contact_email old))
         (given (set_address v) (address old))
         (given (set_is_active v) (is_active old))
         (given (set_created_at v) (created_at old))
         (given (set_updated_at v) (updated_at old))).

#[global] Instance timestamped : Timestamped t := {
  set_updated_at ts r :=
    mk (id r) (name r) (slug r) (description r) (logo_url r)
       (banner_image_url r) (theme_color r) (background_color r)
       (contact_phone r) (contact_email r) (address r) (is_active r)
       (created_at r) ts
}.
End Restaurant.

(** [CREATE TABLE public.menu_categories] *)
Module MenuCategory.
Record t : Type := mk {
  id : uuid;
  restaurant_id : uuid;
  name : string;
  description : option string;
  display_order : option Z;
  is_active : option bool;
  created_at : option timestamptz;
  updated_at : option timestamptz
}.

Record values : Type := mkvalues {
  set_id : option uuid;
  set_restaurant_id : option uuid;
  set_name : option string;
  set_description : option (option string);
  set_display_order : option (option Z);
  set_is_active : option (option bool);
  set_created_at : option (option timestamptz);
  set_updated_at : option (option timestamptz)
}.

Definition nothing : values :=
  mkvalues None None None None None None None None.

Definition new_row (now : timestamptz) (fresh : uuid) (v : values) : result t :=
  rid <- required (set_restaurant_id v) ;;
  n <- required (set_name v) ;;
  d <- store_integer (given (set_display_order v) (Some 0)) ;;
  Ok (mk (given (set_id v) fresh) rid n
         (given (set_description v) None)
         d
         (given (set_is_active v) (Some true))
         (given (set_created_at v) (Some now))
         (given (set_updated_at v) (Some now))).

Definition assign (v : values) (old : t) : result t :=
  d <- store_integer (given (set_display_order v) (display_order old)) ;;
  Ok (mk (given (set_id v) (id old))
         (given (set_restaurant_id v) (restaurant_id old))
         (given (set_name v) (name old))
         (given (set_description v) (description old))
         d
         (given (set_is_active v) (is_active old))
         (given (set_created_at v) (created_at old))
         (given (set_updated_at v) (updated_at old))).

#[global] Instance timestamped : Timestamped t := {
  set_updated_at ts r :=
    mk (id r) (restaurant_id r) (name r) (description r) (display_order r)
       (is_active r) (created_at r) ts
}.
End MenuCategory.

(** [CREATE TABLE public.menu_items] *)
Module MenuItem.
Record t : Type := mk {
  id : uuid;
  category_id : uuid;
  name : string;
  description : option string;
  price : numeric;
  image_url : option string;
  is_vegetarian : option bool;
  is_vegan : option bool;
  is_spicy : option bool;
  is_available : option bool;
  display_order : option Z;
  created_at : option timestamptz;
  updated_at : option timestamptz
}.

Record values : Type := mkvalues {
  set_id : option uuid;
  set_category_id : option uuid;
  set_name : option string;
  set_description : option (option string);
  set_price : option numeric_literal;
  set_image_url : option (option string);
  set_is_vegetarian : option (option bool);
  set_is_vegan : option (option bool);
  set_is_spicy : option (option bool);
  set_is_available : option (option bool);
  set_display_order : option (option Z);
  set_created_at : option (option timestamptz);
  set_updated_at : option (option timestamptz)
}.

Definition nothing : values :=
  mkvalues None None None None None None None None None None None None None.

Definition new_row (now : timestamptz) (fresh : uuid) (v : values) : result t :=
  cid <- required (set_category_id v) ;;
  n <- required (set_name v) ;;
  p <- required (set_price v) ;;
  h <- store_price p ;;
  d <- store_integer (given (set_display_order v) (Some 0)) ;;
  Ok (mk (given (set_id v) fresh) cid n
         (given (set_description v) None)
         h
         (given (set_image_url v) None)
         (given (set_is_vegetarian v) (Some false))
         (given (set_is_vegan v) (Some false))
         (given (set_is_spicy v) (Some false))
         (given (set_is_available v) (Some true))
         d
         (given (set_created_at v) (Some now))
         (given (set_updated_at v) (Some now))).

Definition assign (v : values) (old : t) : result t :=
  h <- match set_price v with
       | Some p => store_price p
       | None => Ok (price old)
       end ;;
  d <- store_integer (given (set_display_order v) (display_order old)) ;;
  Ok (mk (given (set_id v) (id old))
         (given (set_category_id v) (category_id old))
         (given (set_name v) (name old))
         (given (set_description v) (description old))
         h
         (given (set_image_url v) (image_url old))
         (given (set_is_vegetarian v) (is_vegetarian old))
         (given (set_is_vegan v) (is_vegan old))
         (given (set_is_spicy v) (is_spicy old))
         (given (set_is_available v) (is_available old))
         d
         (given (set_created_at v) (created_at old))
         (given (set_updated_at v) (updated_at old))).

#[global] Instance timestamped : Timestamped t := {
  set_updated_at ts r :=
    mk (id r) (category_id r) (name r) (description r) (price r)
       (image_url r) (is_vegetarian r) (is_vegan r) (is_spicy r)
       (is_available r) (display_order r) (created_at r) ts
}.
End MenuItem.

(** [CREATE TABLE public.user_roles] *)
Module UserRole.
Record t : Type := mk {
  id : uuid;
  user_id : uuid;
  role : app_role;
  restaurant_id : option uuid;
  created_at : option timestamptz
}.

Record values : Type := mkvalues {
  set_id : option uuid;
  set_user_id : option uuid;
  set_role : option app_role;
  set_restaurant_id : option (option uuid);
  set_created_at : option (option timestamptz)
}.

Definition nothing : values := mkvalues None None None None None.

Definition new_row (now : timestamptz) (fresh : uuid) (v : values) : result t :=
  u <- required (set_user_id v) ;;
  Ok (mk (given (set_id v) fresh) u
         (given (set_role v) user)
         (given (set_restaurant_id v) None)
         (given (set_created_at v) (Some now))).

Definition assign (v : values) (old : t) : result t :=
  Ok (mk (given (set_id v) (id old))
         (given (set_user_id v) (user_id old))
         (given (set_role v) (role old))
         (given (set_restaurant_id v) (restaurant_id old))
         (given (set_created_at v) (created_at old))).
End UserRole.

(** The database: the four public tables and the ids of [auth.users],
    which [user_roles.user_id] references. *)
Record database : Type := mkdb {
  auth_users : list uuid;
  restaurants : list Restaurant.t;
  menu_categories : list MenuCategory.t;
  menu_items : list MenuItem.t;
  user_roles : list UserRole.t
}.

Inductive table : Type :=
  | on_restaurants | on_menu_categories | on_menu_items | on_user_roles.

Definition row (t : table) : Type :=
  match t with
  | on_restaurants => Restaurant.t
  | on_menu_categories => MenuCategory.t
  | on_menu_items => MenuItem.t
  | on_user_roles => UserRole.t
  end.

Definition rows_of (db : database) (t : table) : list (row t) :=
  match t with
  | on_restaurants => restaurants db
  | on_menu_categories => menu_categories db
  | on_menu_items => menu_items db
  | on_user_roles => user_roles db
  end.

(** ** Callers *)

(** The authentication provider hands the store a database role and,
    for a signed-in caller, the user id of the verified token. *)
Inductive caller : Type :=
  | Anonymous
  | Authenticated (uid : uuid).

Inductive pg_role : Type := anon | authenticated.

Definition auth_role (c : caller) : pg_role :=
  match c with
  | Anonymous => anon
  | Authenticated _ => authenticated
  end.

(** [auth.uid()]: NULL for an anonymous caller. *)
Definition auth_uid (c : caller) : option uuid :=
  match c with
  | Anonymous => None
  | Authenticated u => Some u
  end.

(** ** [public.has_role]

    [SELECT EXISTS (SELECT 1 FROM public.user_roles
                    WHERE user_id = _user_id AND role = _role)].
    The function is SECURITY DEFINER: it scans the table itself, not the
    rows the caller's own policies would let through. *)
Definition has_role (db : database) (_user_id : option uuid) (_role : app_role) : bool :=
  existsb
    (fun r => is_true (sql_and (sql_eq N.eqb (Some (UserRole.user_id r)) _user_id)
                               (sql_eq app_role_eqb (Some (UserRole.role r)) (Some _role))))
    (user_roles db).

(** ** Row-level security *)

Inductive command : Type := SELECT | INSERT | UPDATE | DELETE.

(** The [FOR ...] clause of [CREATE POLICY]. *)
Inductive policy_command : Type :=
  | FOR_ALL | FOR_SELECT | FOR_INSERT | FOR_UPDATE | FOR_DELETE.

(** The [TO ...] clause; a policy without one is for PUBLIC. *)
Inductive policy_roles : Type := TO_public | TO_authenticated.

(** A policy expression sees the database (through [has_role]), the
    caller (through [auth.uid()]) and the row it is evaluated on. *)
Definition row_expr (t : table) : Type := database -> caller -> row t -> sql_bool.

Record policy (t : table) : Type := mkpolicy {
  polname : string;
  polcmd : policy_command;
  polroles : policy_roles;
  polqual : row_expr t;                   (* USING *)
  polwithcheck : option (row_expr t)      (* WITH CHECK *)
}.
Arguments mkpolicy {t}.
Arguments polname {t}.
Arguments polcmd {t}.
Arguments polroles {t}.
Arguments polqual {t}.
Arguments polwithcheck {t}.

(** The policy catalogue: which tables have row-level security enabled
    and the policies of each table, in creation order. *)
Record catalogue : Type := mkcat {
  rls_enabled : table -> bool;
  policies_on : forall t : table, list (policy t)
}.

Definition table_eq_dec (a b : table) : {a = b} + {a <> b}.
Proof. decide equality. Defined.

Definition no_policies : catalogue :=
  mkcat (fun _ => false) (fun _ => []).

(** [ALTER TABLE t ENABLE ROW LEVEL SECURITY] *)
Definition enable_row_level_security (t : table) (cat : catalogue) : catalogue :=
  mkcat (fun t' => if table_eq_dec t t' then true else rls_enabled cat t')
        (policies_on cat).

(** [CREATE POLICY name ON t ...] *)
Definition create_policy {t : table} (p : policy t) (cat : catalogue) : catalogue :=
  mkcat (rls_enabled cat)
        (fun t' =>
           match table_eq_dec t t' with
           | left e => (policies_on cat t' ++ [eq_rect t policy p t' e])%list
           | right _ => policies_on cat t'
           end).

(** [DROP POLICY IF EXISTS name ON t] *)
Definition drop_policy_if_exists (name : string) (t : table) (cat : catalogue) : catalogue :=
  mkcat (rls_enabled cat)
        (fun t' =>
           if table_eq_dec t t'
           then filter (fun p => negb (String.eqb (polname p) name)) (policies_on cat t')
           else policies_on cat t').

(** *** Evaluation

    All policies of the schema are permissive: a row passes when some
    policy that applies to the command and to the caller's role accepts
    it.  With row-level security enabled and no such policy, the row
    does not pass. *)
Definition applies_to_command (pc : policy_command) (cmd : command) : bool :=
  match pc, cmd with
  | FOR_ALL, _ => true
  | FOR_SELECT, SELECT | FOR_INSERT, INSERT
  | FOR_UPDATE, UPDATE | FOR_DELETE, DELETE => true
  | _, _ => false
  end.

Definition applies_to_role (pr : policy_roles) (r : pg_role) : bool :=
  match pr, r with
  | TO_public, _ => true
  | TO_authenticated, authenticated => true
  | TO_authenticated, anon => false
  end.

Definition applicable {t : table} (cmd : command) (c : caller) (p : policy t) : bool :=
  applies_to_command (polcmd p) cmd && applies_to_role (polroles p) (auth_role c).

(** A policy without WITH CHECK uses its USING expression for new rows. *)
Definition check_expr {t : table} (p : policy t) : row_expr t :=
  match polwithcheck p with
  | Some e => e
  | None => polqual p
  end.

(** USING: may the command see (select, update, delete) this existing row? *)
Definition rls_using (cat : catalogue) (db : database) (c : caller)
    (cmd : command) {t : table} (r : row t) : bool :=
  if rls_enabled cat t
  then existsb (fun p => applicable cmd c p && is_true (polqual p db c r)) (policies_on cat t)
  else true.

(** WITH CHECK: may the command store (insert, update to) this new row? *)
Definition rls_with_check (cat : catalogue) (db : database) (c : caller)
    (cmd : command) {t : table} (r : row t) : bool :=
  if rls_enabled cat t
  then existsb (fun p => applicable cmd c p && is_true (check_expr p db c r)) (policies_on cat t)
  else true.

(** *** The policies of the schema *)

Definition caller_is_admin {t : table} : row_expr t :=
  fun db c _ => Some (has_role db (auth_uid c) admin).

Definition anyone_can_view_active_restaurants : policy on_restaurants :=
  mkpolicy (t := on_restaurants) "Anyone can view active restaurants" FOR_SELECT TO_public
    (fun _ _ r => sql_eq Bool.eqb (Restaurant.is_active r) (Some true)) None.

Definition admins_can_manage_restaurants : policy on_restaurants :=
  mkpolicy (t := on_restaurants) "Admins can manage restaurants" FOR_ALL TO_authenticated
    caller_is_admin (Some caller_is_admin).

Definition anyone_can_view_active_categories : policy on_menu_categories :=
  mkpolicy (t := on_menu_categories) "Anyone can view active categories" FOR_SELECT TO_public
    (fun _ _ r => sql_eq Bool.eqb (MenuCategory.is_active r) (Some true)) None.

Definition admins_can_manage_categories : policy on_menu_categories :=
  mkpolicy (t := on_menu_categories) "Admins can manage categories" FOR_ALL TO_authenticated
    caller_is_admin (Some caller_is_admin).

Definition anyone_can_view_available_items : policy on_menu_items :=
  mkpolicy (t := on_menu_items) "Anyone can view available items" FOR_SELECT TO_public
    (fun _ _ r => sql_eq Bool.eqb (MenuItem.is_available r) (Some true)) None.

Definition admins_can_manage_items : policy on_menu_items :=
  mkpolicy (t := on_menu_items) "Admins can manage items" FOR_ALL TO_authenticated
    caller_is_admin (Some caller_is_admin).

Definition users_can_view_their_own_roles : policy on_user_roles :=
  mkpolicy (t := on_user_roles) "Users can view their own roles" FOR_SELECT TO_authenticated
    (fun _ c r => sql_eq N.eqb (Some (UserRole.user_id r)) (auth_uid c)) None.

Definition admins_can_manage_all_roles : policy on_user_roles :=
  mkpolicy (t := on_user_roles) "Admins can manage all roles" FOR_ALL TO_authenticated
    caller_is_admin (Some caller_is_admin).

(** [user_id = auth.uid() OR public.has_role(auth.uid(), 'admin'::app_role)] *)
Definition users_can_only_view_their_own_roles : policy on_user_roles :=
  mkpolicy (t := on_user_roles) "Users can only view their own roles" FOR_SELECT TO_authenticated
    (fun db c r => sql_or (sql_eq N.eqb (Some (UserRole.user_id r)) (auth_uid c))
                          (Some (has_role db (auth_uid c) admin)))
    None.

(** The first migration: enable row-level security on the four tables,
    then create the eight policies. *)
Definition migration_create_schema (cat : catalogue) : catalogue :=
  create_policy admins_can_manage_all_roles
  (create_policy users_can_view_their_own_roles
  (create_policy admins_can_manage_items
  (create_policy anyone_can_view_available_items
  (create_policy admins_can_manage_categories
  (create_policy anyone_can_view_active_categories
  (create_policy admins_can_manage_restaurants
  (create_policy anyone_can_view_active_restaurants
  (enable_row_level_security on_user_roles
  (enable_row_level_security on_menu_items
  (enable_row_level_security on_menu_categories
  (enable_row_level_security on_restaurants cat))))))))))).

(** Migration 20251206101226: replace the read policy of [user_roles]. *)
Definition migration_20251206101226 (cat : catalogue) : catalogue :=
  create_policy users_can_only_view_their_own_roles
  (drop_policy_if_exists "Users can view their own roles" on_user_roles cat).

(** The catalogue the store runs with. *)
Definition schema : catalogue :=
  migration_20251206101226 (migration_create_schema no_policies).

(** ** Statements *)

(** A statement that fails is rolled back. *)
Definition state_after (r : result database) (db : database) : database :=
  match r with
  | Ok db' => db'
  | Err _ => db
  end.

(** *** Constraints *)

Fixpoint distinct {A : Type} (eqb : A -> A -> bool) (l : list A) : bool :=
  match l with
  | [] => true
  | x :: l' => negb (existsb (eqb x) l') && distinct eqb l'
  end.

Definition mem (x : uuid) (l : list uuid) : bool := existsb (N.eqb x) l.

(** [id UUID PRIMARY KEY] of the four tables. *)
Definition primary_keys_ok (db : database) : bool :=
  distinct N.eqb (map Restaurant.id (restaurants db)) &&
  distinct N.eqb (map MenuCategory.id (menu_categories db)) &&
  distinct N.eqb (map MenuItem.id (menu_items db)) &&
  distinct N.eqb (map UserRole.id (user_roles db)).

(** [slug TEXT UNIQUE NOT NULL] *)
Definition slug_unique (db : database) : bool :=
  distinct String.eqb (map Restaurant.slug (restaurants db)).

(** [UNIQUE(user_id, role, restaurant_id)].  Two keys conflict when all
    their columns are equal; a NULL is equal to nothing, itself
    included, so a row whose [restaurant_id] is NULL has no key that
    could conflict. *)
Definition role_key (r : UserRole.t) : option (uuid * app_role * uuid) :=
  match UserRole.restaurant_id r with
  | Some s => Some (UserRole.user_id r, UserRole.role r, s)
  | None => None
  end.

Definition role_key_eqb (a b : uuid * app_role * uuid) : bool :=
  let '(u1, r1, s1) := a in
  let '(u2, r2, s2) := b in
  N.eqb u1 u2 && app_role_eqb r1 r2 && N.eqb s1 s2.

Fixpoint non_null {A : Type} (l : list (option A)) : list A :=
  match l with
  | [] => []
  | Some x :: l' => x :: non_null l'
  | None :: l' => non_null l'
  end.

Definition user_roles_unique (db : database) : bool :=
  distinct role_key_eqb (non_null (map role_key (user_roles db))).

(** The REFERENCES clauses. *)
Definition foreign_keys_ok (db : database) : bool :=
  forallb (fun c => mem (MenuCategory.restaurant_id c) (map Restaurant.id (restaurants db)))
          (menu_categories db) &&
  forallb (fun i => mem (MenuItem.category_id i) (map MenuCategory.id (menu_categories db)))
          (menu_items db) &&
  forallb (fun u => mem (UserRole.user_id u) (auth_users db) &&
                    match UserRole.restaurant_id u with
                    | Some s => mem s (map Restaurant.id (restaurants db))
                    | None => true
                    end)
          (user_roles db).

Definition check_constraints (db : database) : result database :=
  if primary_keys_ok db && slug_unique db && user_roles_unique db
  then if foreign_keys_ok db then Ok db else Err foreign_key_violation
  else Err unique_violation.

(** *** Generic INSERT, UPDATE, DELETE and SELECT *)

Definition values (t : table) : Type :=
  match t with
  | on_restaurants => Restaurant.values
  | on_menu_categories => MenuCategory.values
  | on_menu_items => MenuItem.values
  | on_user_roles => UserRole.values
  end.

Definition new_row (t : table) : timestamptz -> uuid -> values t -> result (row t) :=
  match t with
  | on_restaurants => Restaurant.new_row
  | on_menu_categories => MenuCategory.new_row
  | on_menu_items => MenuItem.new_row
  | on_user_roles => UserRole.new_row
  end.

Definition assign (t : table) : values t -> row t -> result (row t) :=
  match t with
  | on_restaurants => Restaurant.assign
  | on_menu_categories => MenuCategory.assign
  | on_menu_items => MenuItem.assign
  | on_user_roles => UserRole.assign
  end.

Definition row_id (t : table) : row t -> uuid :=
  match t with
  | on_restaurants => Restaurant.id
  | on_menu_categories => MenuCategory.id
  | on_menu_items => MenuItem.id
  | on_user_roles => UserRole.id
  end.

Definition set_rows (db : database) (t : table) : list (row t) -> database :=
  match t with
  | on_restaurants => fun rs =>
      mkdb (auth_users db) rs (menu_categories db) (menu_items db) (user_roles db)
  | on_menu_categories => fun rs =>
      mkdb (auth_users db) (restaurants db) rs (menu_items db) (user_roles db)
  | on_menu_items => fun rs =>
      mkdb (auth_users db) (restaurants db) (menu_categories db) rs (user_roles db)
  | on_user_roles => fun rs =>
      mkdb (auth_users db) (restaurants db) (menu_categories db) (menu_items db) rs
  end.

(** [public.handle_updated_at()]:  [NEW.updated_at = now(); RETURN NEW;] *)
Definition handle_updated_at {A : Type} `{Timestamped A} (now : timestamptz) (NEW : A) : A :=
  set_updated_at (Some now) NEW.

(** The BEFORE UPDATE ... FOR EACH ROW triggers: [set_restaurants_updated_at],
    [set_menu_categories_updated_at], [set_menu_items_updated_at];
    [user_roles] has none. *)
Definition before_update (t : table) (now : timestamptz) : row t -> row t :=
  match t with
  | on_restaurants => handle_updated_at (A := Restaurant.t) now
  | on_menu_categories => handle_updated_at (A := MenuCategory.t) now
  | on_menu_items => handle_updated_at (A := MenuItem.t) now
  | on_user_roles => fun NEW => NEW
  end.

(** [INSERT INTO t (columns of v) VALUES (v)].  WITH CHECK is evaluated
    on the database the statement started from. *)
Definition insert_into (cat : catalogue) (c : caller) (now : timestamptz) (fresh : uuid)
    (t : table) (v : values t) (db : database) : result database :=
  NEW <- new_row t now fresh v ;;
  if rls_with_check cat db c INSERT NEW
  then check_constraints (set_rows db t (rows_of db t ++ [NEW])%list)
  else Err row_security_violation.

(** The rows an [UPDATE ... WHERE] or a [DELETE ... WHERE] works on: those
    the WHERE clause keeps among the rows the caller may read and may
    update (delete). *)
Definition targeted (cat : catalogue) (db : database) (c : caller) (cmd : command)
    {t : table} (where_ : row t -> bool) (r : row t) : bool :=
  where_ r && rls_using cat db c SELECT r && rls_using cat db c cmd r.

Fixpoint update_rows (cat : catalogue) (db : database) (c : caller) (now : timestamptz)
    (t : table) (v : values t) (where_ : row t -> bool) (rows : list (row t))
    : result (list (row t)) :=
  match rows with
  | [] => Ok []
  | OLD :: rest =>
      NEW <- (if targeted cat db c UPDATE where_ OLD
              then assigned <- assign t v OLD ;;
                   let NEW := before_update t now assigned in
                   if rls_with_check cat db c UPDATE NEW
                   then Ok NEW
                   else Err row_security_violation
              else Ok OLD) ;;
      rest' <- update_rows cat db c now t v where_ rest ;;
      Ok (NEW :: rest')
  end.

(** [UPDATE t SET v WHERE where_] *)
Definition update_set (cat : catalogue) (c : caller) (now : timestamptz)
    (t : table) (v : values t) (where_ : row t -> bool) (db : database) : result database :=
  rows <- update_rows cat db c now t v where_ (rows_of db t) ;;
  check_constraints (set_rows db t rows).

(** [menu_items.category_id ... ON DELETE CASCADE] *)
Definition cascade_menu_categories (gone : list MenuCategory.t) (db : database) : database :=
  let ids := map MenuCategory.id gone in
  set_rows db on_menu_items
    (filter (fun i => negb (mem (MenuItem.category_id i) ids)) (menu_items db)).

(** [menu_categories.restaurant_id ... ON DELETE CASCADE] and
    [user_roles.restaurant_id ... ON DELETE CASCADE]; the categories that
    go take their items with them. *)
Definition cascade_restaurants (gone : list Restaurant.t) (db : database) : database :=
  let ids := map Restaurant.id gone in
  let references c := mem (MenuCategory.restaurant_id c) ids in
  let scoped u :=
    match UserRole.restaurant_id u with
    | Some s => mem s ids
    | None => false
    end in
  cascade_menu_categories (filter references (menu_categories db))
    (mkdb (auth_users db) (restaurants db)
          (filter (fun c => negb (references c)) (menu_categories db))
          (menu_items db)
          (filter (fun u => negb (scoped u)) (user_roles db))).

Definition on_delete_cascade (t : table) : list (row t) -> database -> database :=
  match t with
  | on_restaurants => cascade_restaurants
  | on_menu_categories => cascade_menu_categories
  | on_menu_items => fun _ db => db
  | on_user_roles => fun _ db => db
  end.

(** [DELETE FROM t WHERE where_]: one statement, cascades included. *)
Definition delete_from (cat : catalogue) (c : caller)
    (t : table) (where_ : row t -> bool) (db : database) : result database :=
  let gone := filter (targeted cat db c DELETE where_) (rows_of db t) in
  let kept := filter (fun r => negb (targeted cat db c DELETE where_ r)) (rows_of db t) in
  Ok (on_delete_cascade t gone (set_rows db t kept)).

(** [SELECT * FROM t WHERE where_] *)
Definition select_from (cat : catalogue) (c : caller) (db : database)
    (t : table) (where_ : row t -> bool) : list (row t) :=
  filter (fun r => rls_using cat db c SELECT r && where_ r) (rows_of db t).

(** [.eq("id", x)] *)
Definition id_eq (t : table) (x : uuid) (r : row t) : bool := N.eqb (row_id t r) x.

(** ** The public client *)

(** [.order(column)]: ascending, NULLs last. *)
Fixpoint insert_sorted {A : Type} (le : A -> A -> bool) (x : A) (l : list A) : list A :=
  match l with
  | [] => [x]
  | y :: l' => if le x y then x :: l else y :: insert_sorted le x l'
  end.

Definition order_by {A : Type} (le : A -> A -> bool) (l : list A) : list A :=
  fold_right (insert_sorted le) [] l.

Definition nulls_last (a b : option Z) : bool :=
  match a, b with
  | Some x, Some y => x <=? y
  | Some _, None => true
  | None, Some _ => false
  | None, None => true
  end.

(** [.single()]: the one row of the result, or the error that reports
    how many rows there were instead. *)
Inductive postgrest_error : Type :=
  | not_a_single_row (rows_returned : nat).

Definition single {A : Type} (rows : list A) : A + postgrest_error :=
  match rows with
  | [r] => inl r
  | _ => inr (not_a_single_row (List.length rows))
  end.

Definition equals_true (b : option bool) : bool := is_true (sql_eq Bool.eqb b (Some true)).

(** The restaurant list page. *)
Module Restaurants.
Record state : Type := mkstate {
  restaurants : list Restaurant.t;
  loading : bool
}.

Definition initial : state := mkstate [] true.

(** [from("restaurants").select("*").eq("is_active", true).order("name")];
    byte order of the names stands for the collation of the database. *)
Definition fetchRestaurants (cat : catalogue) (c : caller) (db : database) (st : state) : state :=
  let data :=
    order_by (fun a b => String.leb (Restaurant.name a) (Restaurant.name b))
      (select_from cat c db on_restaurants (fun r => equals_true (Restaurant.is_active r))) in
  mkstate data false.
End Restaurants.

(** The menu page of one restaurant. *)
Module RestaurantMenu.
Inductive diet : Type := all | veg | non_veg.

Record state : Type := mkstate {
  restaurant : option Restaurant.t;
  categories : list MenuCategory.t;
  menuItems : list MenuItem.t;
  loading : bool;
  activeCategory : option uuid;
  dietFilter : diet;
  toasts : list string;
  console : list postgrest_error
}.

Definition initial : state := mkstate None [] [] true None all [] [].

Definition fetchRestaurantData (cat : catalogue) (c : caller) (db : database)
    (slug : string) (st : state) : state :=
  match single (select_from cat c db on_restaurants
                  (fun r => String.eqb (Restaurant.slug r) slug &&
                            equals_true (Restaurant.is_active r))) with
  | inr restaurantError =>
      mkstate (restaurant st) (categories st) (menuItems st) false
              (activeCategory st) (dietFilter st)
              (toasts st ++ ["Failed to load menu"])%list
              (console st ++ [restaurantError])%list
  | inl restaurantData =>
      let categoriesData :=
        order_by (fun a b => nulls_last (MenuCategory.display_order a)
                                        (MenuCategory.display_order b))
          (select_from cat c db on_menu_categories
             (fun k => N.eqb (MenuCategory.restaurant_id k) (Restaurant.id restaurantData) &&
                       equals_true (MenuCategory.is_active k))) in
      let itemsData :=
        order_by (fun a b => nulls_last (MenuItem.display_order a)
                                        (MenuItem.display_order b))
          (select_from cat c db on_menu_items
             (fun i => mem (MenuItem.category_id i) (map MenuCategory.id categoriesData) &&
                       equals_true (MenuItem.is_available i))) in
      mkstate (Some restaurantData) categoriesData itemsData false
              (match categoriesData with
               | first :: _ => Some (MenuCategory.id first)
               | [] => activeCategory st
               end)
              (dietFilter st) (toasts st) (console st)
  end.

Definition truthy (b : option bool) : bool :=
  match b with
  | Some true => true
  | _ => false
  end.

Definition getCategoryItems (st : state) (categoryId : uuid) : list MenuItem.t :=
  filter (fun item =>
            if negb (N.eqb (MenuItem.category_id item) categoryId) then false
            else match dietFilter st with
                 | veg => truthy (MenuItem.is_vegetarian item) || truthy (MenuItem.is_vegan item)
                 | non_veg => negb (truthy (MenuItem.is_vegetarian item)) &&
                              negb (truthy (MenuItem.is_vegan item))
                 | all => true
                 end)
         (menuItems st).

(** What the page shows. *)
Inductive view : Type :=
  | Skeleton
  | Restaurant_not_found
  | Menu (r : Restaurant.t) (sections : list (MenuCategory.t * list MenuItem.t)).

Definition render (st : state) : view :=
  if loading st then Skeleton
  else match restaurant st with
       | None => Restaurant_not_found
       | Some r =>
           Menu r (filter (fun s => negb (Nat.eqb (List.length (snd s)) 0))
                          (map (fun k => (k, getCategoryItems st (MenuCategory.id k)))
                               (categories st)))
       end.

(** Opening [/:slug]. *)
Definition visit (cat : catalogue) (c : caller) (db : database) (slug : string) : state :=
  if String.eqb slug "" then initial else fetchRestaurantData cat c db slug initial.
End RestaurantMenu.

(** ** The admin page's gate *)

Module Admin.
Record state : Type := mkstate {
  isAdmin : bool;
  loading : bool;
  navigated_to : option string;
  toasts : list string
}.

Definition initial : state := mkstate false true None [].

(** [from("user_roles").select("role").eq("user_id", user.id)
     .eq("role", "admin").single()], after [supabase.auth.getUser()]. *)
Definition checkAdminAccess (cat : catalogue) (c : caller) (db : database) (st : state) : state :=
  match auth_uid c with
  | None => mkstate (isAdmin st) false (Some "/auth") (toasts st)
  | Some user_id =>
      match single (map UserRole.role
                      (select_from cat c db on_user_roles
                         (fun g => N.eqb (UserRole.user_id g) user_id &&
                                   app_role_eqb (UserRole.role g) admin))) with
      | inr _ =>
          mkstate (isAdmin st) false (Some "/")
                  (toasts st ++ ["Access denied. Admin privileges required."])%list
      | inl _ => mkstate true false (navigated_to st) (toasts st)
      end
  end.
End Admin.

(** The caller is signed in and holds an admin grant. *)
Definition admin_caller (db : database) (c : caller) : bool :=
  match c with
  | Anonymous => false
  | Authenticated u => has_role db (Some u) admin
  end.

(** ** A small database

    Alice holds an admin grant scoped to the closed restaurant, Bob a
    global [user] grant, Carol none.  "Pizza Palace" is active and has an
    active category "Starters" with the available item "Garlic Bread" at
    149.00, and an inactive category "Specials" with an available item. *)

Definition alice : uuid := 7%N.
Definition bob : uuid := 8%N.
Definition carol : uuid := 9%N.

Definition pizza_palace : Restaurant.t :=
  Restaurant.mk 1%N "Pizza Palace" "pizza-palace" None None None
    (Some "#FF6B35") (Some "#FFF5F0") None None None (Some true) (Some 1000) (Some 1000).

Definition closed_kitchen : Restaurant.t :=
  Restaurant.mk 2%N "Closed Kitchen" "closed-kitchen" None None None
    (Some "#FF6B35") (Some "#FFF5F0") None None None (Some false) (Some 1000) (Some 1000).

Definition starters : MenuCategory.t :=
  MenuCategory.mk 10%N 1%N "Starters" None (Some 0) (Some true) (Some 1000) (Some 1000).

Definition specials : MenuCategory.t :=
  MenuCategory.mk 11%N 1%N "Specials" None (Some 1) (Some false) (Some 1000) (Some 1000).

Definition kitchen_mains : MenuCategory.t :=
  MenuCategory.mk 12%N 2%N "Mains" None (Some 0) (Some true) (Some 1000) (Some 1000).

Definition garlic_bread : MenuItem.t :=
  MenuItem.mk 100%N 10%N "Garlic Bread" None (hundredths 14900) None
    (Some true) (Some false) (Some false) (Some true) (Some 0) (Some 1000) (Some 1000).

Definition truffle_pizza : MenuItem.t :=
  MenuItem.mk 101%N 11%N "Truffle Pizza" None (hundredths 59900) None
    (Some true) (Some false) (Some false) (Some true) (Some 0) (Some 1000) (Some 1000).

Definition kitchen_stew : MenuItem.t :=
  MenuItem.mk 102%N 12%N "Stew" None (hundredths 25000) None
    (Some false) (Some false) (Some true) (Some true) (Some 0) (Some 1000) (Some 1000).

Definition alice_admin : UserRole.t := UserRole.mk 50%N alice admin (Some 2%N) (Some 1000).
Definition bob_user : UserRole.t := UserRole.mk 51%N bob user None (Some 1000).

Definition scenario : database :=
  mkdb [alice; bob; carol]
       [pizza_palace; closed_kitchen]
       [starters; specials; kitchen_mains]
       [garlic_bread; truffle_pizza; kitchen_stew]
       [alice_admin; bob_user].

(** The same database, had the closed restaurant never been entered. *)
Definition never_opened : database :=
  mkdb [alice; bob; carol]
       [pizza_palace]
       [starters; specials]
       [garlic_bread; truffle_pizza]
       [bob_user].

(** ** Vocabulary of the properties *)

(** The catalogue of [schema] without any policy on [user_roles]: no
    caller can read a grant. *)
Definition roles_unreadable : catalogue :=
  drop_policy_if_exists "Admins can manage all roles" on_user_roles
    (drop_policy_if_exists "Users can only view their own roles" on_user_roles schema).

(** The same grant with another restaurant scope. *)
Definition with_scope (s : option uuid) (g : UserRole.t) : UserRole.t :=
  UserRole.mk (UserRole.id g) (UserRole.user_id g) (UserRole.role g) s (UserRole.created_at g).

Definition updated_at_of (t : table) : row t -> option timestamptz :=
  match t with
  | on_restaurants => Restaurant.updated_at
  | on_menu_categories => MenuCategory.updated_at
  | on_menu_items => MenuItem.updated_at
  | on_user_roles => fun _ => None
  end.

Definition created_at_of (t : table) : row t -> option timestamptz :=
  match t with
  | on_restaurants => Restaurant.created_at
  | on_menu_categories => MenuCategory.created_at
  | on_menu_items => MenuItem.created_at
  | on_user_roles => UserRole.created_at
  end.

Definition created_at_given (t : table) : values t -> option (option timestamptz) :=
  match t with
  | on_restaurants => Restaurant.set_created_at
  | on_menu_categories => MenuCategory.set_created_at
  | on_menu_items => MenuItem.set_created_at
  | on_user_roles => UserRole.set_created_at
  end.

(** What an UPDATE does to one row. *)
Definition row_updated (cat : catalogue) (db : database) (c : caller) (now : timestamptz)
    (t : table) (v : values t) (where_ : row t -> bool) (OLD NEW : row t) : Prop :=
  if targeted cat db c UPDATE where_ OLD
  then exists assigned, assign t v OLD = Ok assigned /\
                        NEW = before_update t now assigned /\
                        rls_with_check cat db c UPDATE NEW = true
  else NEW = OLD.

(** Alice hides "Garlic Bread" at time 2000. *)
Definition hide_item : MenuItem.values :=
  MenuItem.mkvalues None None None None None None None None None (Some (Some false))
                    None None None.

Definition hide_garlic_bread : result database :=
  update_set schema (Authenticated alice) 2000 on_menu_items hide_item
             (id_eq on_menu_items 100%N) scenario.

(** Alice sets [created_at] of "Pizza Palace" to 5 at time 2000. *)
Definition backdate : Restaurant.values :=
  Restaurant.mkvalues None None None None None None None None None None None None
                      (Some (Some 5)) None.

Definition backdate_pizza_palace : result database :=
  update_set schema (Authenticated alice) 2000 on_restaurants backdate
             (id_eq on_restaurants 1%N) scenario.

(** Alice inserts a restaurant at time 1000 with [updated_at] 5000, and
    renames it at time 2000. *)
Definition postdated : Restaurant.values :=
  Restaurant.mkvalues None (Some "Late Bar") (Some "late-bar") None None None None None
                      None None None None None (Some (Some 5000)).

Definition rename : Restaurant.values :=
  Restaurant.mkvalues None (Some "Later Bar") None None None None None None
                      None None None None None None.

Definition insert_postdated : result database :=
  insert_into schema (Authenticated alice) 1000 3%N on_restaurants postdated scenario.

Definition rename_postdated : result database :=
  update_set schema (Authenticated alice) 2000 on_restaurants rename
             (id_eq on_restaurants 3%N) (state_after insert_postdated scenario).

Definition refers_to (rid : uuid) (k : MenuCategory.t) : bool :=
  N.eqb (MenuCategory.restaurant_id k) rid.

Definition scoped_to (rid : uuid) (g : UserRole.t) : bool :=
  match UserRole.restaurant_id g with
  | Some s => N.eqb s rid
  | None => false
  end.

(** The categories of restaurant [rid] and the items of those categories. *)
Definition categories_of (db : database) (rid : uuid) : list MenuCategory.t :=
  filter (refers_to rid) (menu_categories db).

Definition items_under (db : database) (ks : list MenuCategory.t) : list MenuItem.t :=
  filter (fun i => mem (MenuItem.category_id i) (map MenuCategory.id ks)) (menu_items db).

(** Alice grants Carol the admin role twice, with no restaurant (a global
    grant), and twice for "Pizza Palace". *)
Definition global_grant : UserRole.values :=
  UserRole.mkvalues None (Some carol) (Some admin) None None.

Definition scoped_grant : UserRole.values :=
  UserRole.mkvalues None (Some carol) (Some admin) (Some (Some 1%N)) None.

Definition grant_twice (v : UserRole.values) : result database :=
  db1 <- insert_into schema (Authenticated alice) 2000 60%N on_user_roles v scenario ;;
  insert_into schema (Authenticated alice) 2001 61%N on_user_roles v db1.

Definition grant_triple (g : UserRole.t) : uuid * app_role * option uuid :=
  (UserRole.user_id g, UserRole.role g, UserRole.restaurant_id g).






(** Alice enters an item priced -1.00 and reprices "Garlic Bread" to -0.5. *)
Definition refund : MenuItem.values :=
  MenuItem.mkvalues None (Some 10%N) (Some "Refund") None
                    (Some (literal {| mantissa := -100; scale := 2 |}))
                    None None None None None None None None.


Definition insert_refund : result database :=
  insert_into schema (Authenticated alice) 2000 103%N on_menu_items refund scenario.




(** ** Further components *)

(** *** The storage bucket of migration 20251025081444 *)

Module Storage.
Record bucket : Type := mkbucket {
  id : string;
  name : string;
  public : bool;
  file_size_limit : Z;
  allowed_mime_types : list string
}.

(** [INSERT INTO storage.buckets ...] *)
Definition menu_images : bucket :=
  mkbucket "menu-images" "menu-images" true 5242880
           ["image/jpeg"; "image/png"; "image/webp"; "image/gif"].

(** A row of [storage.objects], as far as the policies and the bucket
    limits look at it. *)
Record object : Type := mkobject {
  bucket_id : string;
  object_name : string;
  size : Z;
  mime_type : string
}.

(** A policy on [storage.objects]: none has a TO clause, each has one
    expression (USING, or WITH CHECK for INSERT). *)
Record object_policy : Type := mkpolicy {
  polname : string;
  polcmd : policy_command;
  polexpr : caller -> object -> bool
}.

Definition in_menu_images (o : object) : bool := String.eqb (bucket_id o) "menu-images".

(** [auth.role() = 'authenticated'] *)
Definition role_is_authenticated (c : caller) : bool :=
  match auth_role c with
  | authenticated => true
  | anon => false
  end.

Definition policies : list object_policy :=
  [ mkpolicy "Menu images are publicly accessible" FOR_SELECT
      (fun _ o => in_menu_images o);
    mkpolicy "Authenticated users can upload menu images" FOR_INSERT
      (fun c o => in_menu_images o && role_is_authenticated c);
    mkpolicy "Authenticated users can update menu images" FOR_UPDATE
      (fun c o => in_menu_images o && role_is_authenticated c);
    mkpolicy "Authenticated users can delete menu images" FOR_DELETE
      (fun c o => in_menu_images o && role_is_authenticated c) ].

(** The verdict of these policies on a command, where row-level security
    is enabled on [storage.objects] (the migration does not enable it
    itself; [enabled] says whether it is). *)
Definition allowed (enabled : bool) (c : caller) (cmd : command) (o : object) : bool :=
  if enabled
  then existsb (fun p => applies_to_command (polcmd p) cmd && polexpr p c o) policies
  else true.

(** The limits the bucket row sets for an upload. *)
Definition within_limits (b : bucket) (o : object) : bool :=
  (size o <=? file_size_limit b) &&
  existsb (String.eqb (mime_type o)) (allowed_mime_types b).
End Storage.

(** *** What the admin pages show as a toast *)

Inductive toast : Type :=
  | toast_success (msg : string)
  | toast_error (msg : string)
  | toast_failure (error : sql_error) (otherwise : string).

(** A file picked in a file input. *)
Record file : Type := mkfile {
  file_name : string;
  file_type : string;
  file_size : Z
}.

(** [v || ""] *)
Definition or_empty (v : option string) : string :=
  match v with
  | Some s => s
  | None => ""
  end.

(** [value.toLowerCase().replace(/\s+/g, '-')], on ASCII text. *)
Definition is_upper (a : ascii) : bool :=
  (65 <=? nat_of_ascii a)%nat && (nat_of_ascii a <=? 90)%nat.

Definition is_space (a : ascii) : bool :=
  (nat_of_ascii a =? 32)%nat || ((9 <=? nat_of_ascii a)%nat && (nat_of_ascii a <=? 13)%nat).

Definition lower (a : ascii) : ascii :=
  if is_upper a then ascii_of_nat (nat_of_ascii a + 32) else a.

Fixpoint toLowerCase (s : string) : string :=
  match s with
  | EmptyString => EmptyString
  | String a s' => String (lower a) (toLowerCase s')
  end.

(** [in_run]: the previous character was white space, so the hyphen of
    this run is already written. *)
Fixpoint replace_spaces (in_run : bool) (s : string) : string :=
  match s with
  | EmptyString => EmptyString
  | String a s' =>
      if is_space a
      then if in_run then replace_spaces true s' else String "-"%char (replace_spaces true s')
      else String a (replace_spaces false s')
  end.

Definition slug_of_input (value : string) : string :=
  replace_spaces false (toLowerCase value).

(** *** The restaurants tab of the admin page *)

Module RestaurantsAdmin.
Record form : Type := mkform {
  name : string;
  slug : string;
  description : string;
  logo_url : string;
  banner_image_url : string;
  theme_color : option string;
  background_color : option string;
  contact_phone : string;
  address : string
}.

Definition blank : form :=
  mkform "" "" "" "" "" (Some "#FF6B35") (Some "#FFF5F0") "" "".

Record state : Type := mkstate {
  restaurants : list Restaurant.t;
  loading : bool;
  dialogOpen : bool;
  editingRestaurant : option Restaurant.t;
  uploading : bool;
  formData : form;
  toasts : list toast
}.

Definition initial : state := mkstate [] true false None false blank [].

(** The object [.insert([formData])] and [.update(formData)] send. *)
Definition sent (f : form) : Restaurant.values :=
  Restaurant.mkvalues None (Some (name f)) (Some (slug f))
    (Some (Some (description f))) (Some (Some (logo_url f)))
    (Some (Some (banner_image_url f)))
    (Some (theme_color f)) (Some (background_color f))
    (Some (Some (contact_phone f))) None (Some (Some (address f)))
    None None None.

(** [from("restaurants").select("*").order("name")] *)
Definition fetchRestaurants (cat : catalogue) (c : caller) (db : database) (st : state) : state :=
  mkstate (order_by (fun a b => String.leb (Restaurant.name a) (Restaurant.name b))
             (select_from cat c db on_restaurants (fun _ => true)))
          false (dialogOpen st) (editingRestaurant st) (uploading st) (formData st) (toasts st).

Definition resetForm (st : state) : state :=
  mkstate (restaurants st) (loading st) (dialogOpen st) None (uploading st) blank (toasts st).

Definition handleEdit (restaurant : Restaurant.t) (st : state) : state :=
  mkstate (restaurants st) (loading st) true (Some restaurant) (uploading st)
          (mkform (Restaurant.name restaurant) (Restaurant.slug restaurant)
                  (or_empty (Restaurant.description restaurant))
                  (or_empty (Restaurant.logo_url restaurant))
                  (or_empty (Restaurant.banner_image_url restaurant))
                  (Restaurant.theme_color restaurant)
                  (Restaurant.background_color restaurant)
                  (or_empty (Restaurant.contact_phone restaurant))
                  (or_empty (Restaurant.address restaurant)))
          (toasts st).

Definition say (t : toast) (st : state) : state :=
  mkstate (restaurants st) (loading st) (dialogOpen st) (editingRestaurant st) (uploading st)
          (formData st) (toasts st ++ [t])%list.

Definition setDialogOpen (open : bool) (st : state) : state :=
  mkstate (restaurants st) (loading st) open (editingRestaurant st) (uploading st)
          (formData st) (toasts st).

Definition setFormData (f : form) (st : state) : state :=
  mkstate (restaurants st) (loading st) (dialogOpen st) (editingRestaurant st) (uploading st)
          f (toasts st).

(** The database and the page after [handleSubmit] and the reload it
    starts have finished. *)
Definition handleSubmit (cat : catalogue) (c : caller) (now : timestamptz) (fresh : uuid)
    (db : database) (st : state) : database * state :=
  match editingRestaurant st with
  | Some editing =>
      match update_set cat c now on_restaurants (sent (formData st))
                       (id_eq on_restaurants (Restaurant.id editing)) db with
      | Ok db' =>
          (db', fetchRestaurants cat c db'
                  (resetForm (setDialogOpen false
                     (say (toast_success "Restaurant updated successfully") st))))
      | Err e => (db, say (toast_failure e "Failed to save restaurant") st)
      end
  | None =>
      match insert_into cat c now fresh on_restaurants (sent (formData st)) db with
      | Ok db' =>
          (db', fetchRestaurants cat c db'
                  (resetForm (setDialogOpen false
                     (say (toast_success "Restaurant created successfully") st))))
      | Err e => (db, say (toast_failure e "Failed to save restaurant") st)
      end
  end.

(** [confirmed]: the answer to [confirm(...)]. *)
Definition handleDelete (cat : catalogue) (c : caller) (db : database) (confirmed : bool)
    (id : uuid) (st : state) : database * state :=
  if confirmed
  then match delete_from cat c on_restaurants (id_eq on_restaurants id) db with
       | Ok db' =>
           (db', fetchRestaurants cat c db'
                   (say (toast_success "Restaurant deleted successfully") st))
       | Err e => (db, say (toast_failure e "Failed to delete restaurant") st)
       end
  else (db, st).

(** The slug input's [onChange]. *)
Definition change_slug (value : string) (st : state) : state :=
  let f := formData st in
  setFormData (mkform (name f) (slug_of_input value) (description f) (logo_url f)
                      (banner_image_url f) (theme_color f) (background_color f)
                      (contact_phone f) (address f)) st.

(** The checks [handleFileUpload] makes before it uploads. *)
Definition refused (f : file) : option toast :=
  if negb (String.prefix "image/" (file_type f))
  then Some (toast_error "Please upload an image file")
  else if 5 * 1024 * 1024 <? file_size f
       then Some (toast_error "Image size must be less than 5MB")
       else None.
End RestaurantsAdmin.

(** *** The dietary checkboxes of the menu items tab *)

Module MenuItemsAdmin.
Record form : Type := mkform {
  category_id : option uuid;
  name : string;
  description : string;
  price : string;
  image_url : string;
  is_vegetarian : bool;
  is_vegan : bool;
  is_spicy : bool;
  display_order : Z
}.

(** The form [resetForm] sets. *)
Definition blank : form := mkform None "" "" "" "" false false false 0.

Definition with_flags (f : form) (vegetarian vegan spicy : bool) : form :=
  mkform (category_id f) (name f) (description f) (price f) (image_url f)
         vegetarian vegan spicy (display_order f).

(** The [onCheckedChange] handlers. *)
Inductive checkbox : Type := box_vegetarian | box_vegan | box_nonveg | box_spicy.

Definition onCheckedChange (box : checkbox) (checked : bool) (f : form) : form :=
  match box with
  | box_vegetarian => with_flags f checked false (is_spicy f)
  | box_vegan => with_flags f false checked (is_spicy f)
  | box_nonveg => if checked then with_flags f false false (is_spicy f) else f
  | box_spicy => with_flags f (is_vegetarian f) (is_vegan f) checked
  end.

(** The [checked] attribute of each box. *)
Definition shown_checked (box : checkbox) (f : form) : bool :=
  match box with
  | box_vegetarian => is_vegetarian f
  | box_vegan => is_vegan f
  | box_nonveg => negb (is_vegetarian f) && negb (is_vegan f)
  | box_spicy => is_spicy f
  end.

Definition clicks (events : list (checkbox * bool)) (f : form) : form :=
  fold_left (fun g e => onCheckedChange (fst e) (snd e) g) events f.
End MenuItemsAdmin.

(** *** The dish dialog of the menu page (src/pages/RestaurantMenu.tsx) *)

Module DishDialog.
Record state : Type := mkstate {
  selectedItem : option MenuItem.t;
  quantity : Z;
  added : list (Z * string)
}.

Definition initial : state := mkstate None 1 [].

Inductive event : Type :=
  | click_card (item : MenuItem.t)
  | click_minus
  | click_plus
  | click_add
  | close.

(** The minus, plus and add buttons are part of the dialog, which is
    there only while an item is selected.  [added] records the quantity
    and the name of each "Added ... to cart" toast. *)
Definition step (e : event) (st : state) : state :=
  match e, selectedItem st with
  | click_card item, _ => mkstate (Some item) 1 (added st)
  | click_minus, Some _ => mkstate (selectedItem st) (Z.max 1 (quantity st - 1)) (added st)
  | click_plus, Some _ => mkstate (selectedItem st) (quantity st + 1) (added st)
  | click_add, Some item =>
      mkstate None (quantity st) (added st ++ [(quantity st, MenuItem.name item)])%list
  | close, _ => mkstate None (quantity st) (added st)
  | _, None => st
  end.

Definition run (events : list event) (st : state) : state :=
  fold_left (fun s e => step e s) events st.
End DishDialog.

(** [setDietFilter] of the menu page. *)
Definition setDietFilter (d : RestaurantMenu.diet) (st : RestaurantMenu.state)
    : RestaurantMenu.state :=
  RestaurantMenu.mkstate (RestaurantMenu.restaurant st) (RestaurantMenu.categories st)
    (RestaurantMenu.menuItems st) (RestaurantMenu.loading st)
    (RestaurantMenu.activeCategory st) d (RestaurantMenu.toasts st)
    (RestaurantMenu.console st).

(** The row that opening a restaurant in the edit dialog and saving it
    unchanged at time [now] leaves in place of it. *)
Definition resaved (now : timestamptz) (r : Restaurant.t) : Restaurant.t :=
  Restaurant.mk (Restaurant.id r) (Restaurant.name r) (Restaurant.slug r)
    (Some (or_empty (Restaurant.description r)))
    (Some (or_empty (Restaurant.logo_url r)))
    (Some (or_empty (Restaurant.banner_image_url r)))
    (Restaurant.theme_color r) (Restaurant.background_color r)
    (Some (or_empty (Restaurant.contact_phone r)))
    (Restaurant.contact_email r)
    (Some (or_empty (Restaurant.address r)))
    (Restaurant.is_active r) (Restaurant.created_at r) (Some now).

(** Bob, signed in without admin grant, on the restaurants tab with
    "Pizza Palace" open in the edit dialog. *)
Definition bob_edits : RestaurantsAdmin.state :=
  RestaurantsAdmin.handleEdit pizza_palace RestaurantsAdmin.initial.

(** Alice's form for a new restaurant. *)
Definition new_form : RestaurantsAdmin.form :=
  RestaurantsAdmin.mkform "Taco Town" "taco-town" "" "" "" (Some "#FF6B35") (Some "#FFF5F0")
                          "" "".

Definition alice_creates : RestaurantsAdmin.state :=
  RestaurantsAdmin.setFormData new_form RestaurantsAdmin.initial.

(** Neither white space nor a capital letter. *)
Definition clean_char (a : ascii) : bool := negb (is_space a) && negb (is_upper a).

(** Text of ASCII characters only, the text on which [toLowerCase] and
    [\s] are what [is_upper], [lower] and [is_space] say. *)
Definition is_ascii (a : ascii) : bool := (nat_of_ascii a <? 128)%nat.

Definition ascii_text (s : string) : bool := forallb is_ascii (list_ascii_of_string s).

Definition not_hyphen (a : ascii) : bool := negb (Ascii.eqb a "-"%char).

(** [r'] is the row [r] with its id, visibility, creation time and
    contact e-mail as they were. *)
Definition same_standing (r r' : Restaurant.t) : Prop :=
  Restaurant.id r' = Restaurant.id r /\
  Restaurant.is_active r' = Restaurant.is_active r /\
  Restaurant.created_at r' = Restaurant.created_at r /\
  Restaurant.contact_email r' = Restaurant.contact_email r.





(** * Properties *)

(** ** [has_role] *)

Lemma app_role_eqb_eq (a b : app_role) : app_role_eqb a b = true <-> a = b.
Proof. destruct a, b; simpl; split; congruence. Qed.

Lemma has_role_iff (db : database) (uid : option uuid) (r : app_role) :
  has_role db uid r = true <->
  exists g, In g (user_roles db) /\ Some (UserRole.user_id g) = uid /\ UserRole.role g = r.
Proof.
  unfold has_role. rewrite existsb_exists. split.
  - intros (g & Hin & Hg). exists g. split; [exact Hin|].
    destruct uid as [u|]; simpl in Hg.
    + destruct (N.eqb_spec (UserRole.user_id g) u) as [->|];
        destruct (app_role_eqb (UserRole.role g) r) eqn:E; simpl in Hg; try discriminate.
      apply app_role_eqb_eq in E. auto.
    + destruct (app_role_eqb (UserRole.role g) r); discriminate.
  - intros (g & Hin & Hu & Hr). exists g. split; [exact Hin|].
    subst. simpl. rewrite N.eqb_refl.
    replace (app_role_eqb (UserRole.role g) (UserRole.role g)) with true; [reflexivity|].
    symmetry. apply app_role_eqb_eq. reflexivity.
Qed.

Lemma has_role_null (db : database) (r : app_role) : has_role db None r = false.
Proof.
  destruct (has_role db None r) eqn:E; [|reflexivity].
  apply has_role_iff in E. destruct E as (g & _ & H & _). discriminate.
Qed.

Lemma admin_caller_iff (db : database) (c : caller) :
  admin_caller db c = true <->
  exists u, c = Authenticated u /\ has_role db (Some u) admin = true.
Proof.
  destruct c as [|u]; simpl; split.
  - discriminate.
  - intros (u & H & _). discriminate.
  - intros H. exists u. auto.
  - intros (u' & H & Hr). injection H as ->. exact Hr.
Qed.

Lemma not_admin_caller (db : database) (c : caller) :
  c = Anonymous \/ has_role db (auth_uid c) admin = false ->
  admin_caller db c = false.
Proof. intros [->|H]; [reflexivity|]. destruct c; [reflexivity|exact H]. Qed.

(** ** The policies of [schema], evaluated *)

Lemma bool_if_id (b : bool) : (if b then true else false) = b.
Proof. destruct b; reflexivity. Qed.

Section SchemaPolicies.
Variables (db : database) (c : caller).

Lemma rls_enabled_schema (t : table) : rls_enabled schema t = true.
Proof. destruct t; reflexivity. Qed.

Lemma rls_using_write (cmd : command) (t : table) (r : row t) :
  cmd <> SELECT -> rls_using schema db c cmd r = admin_caller db c.
Proof.
  intros H. destruct t, cmd, c; try congruence; cbn;
    rewrite ?bool_if_id, ?orb_false_r; reflexivity.
Qed.

Lemma rls_with_check_write (cmd : command) (t : table) (r : row t) :
  cmd <> SELECT -> rls_with_check schema db c cmd r = admin_caller db c.
Proof.
  intros H. destruct t, cmd, c; try congruence; cbn;
    rewrite ?bool_if_id, ?orb_false_r; reflexivity.
Qed.

Lemma rls_select_restaurants (r : Restaurant.t) :
  rls_using schema db c SELECT (t := on_restaurants) r =
  equals_true (Restaurant.is_active r) || admin_caller db c.
Proof.
  unfold equals_true. destruct c; cbn; destruct (Restaurant.is_active r) as [[|]|]; cbn;
    rewrite ?bool_if_id, ?orb_false_r; reflexivity.
Qed.

Lemma rls_select_menu_categories (k : MenuCategory.t) :
  rls_using schema db c SELECT (t := on_menu_categories) k =
  equals_true (MenuCategory.is_active k) || admin_caller db c.
Proof.
  unfold equals_true. destruct c; cbn; destruct (MenuCategory.is_active k) as [[|]|]; cbn;
    rewrite ?bool_if_id, ?orb_false_r; reflexivity.
Qed.

Lemma rls_select_menu_items (i : MenuItem.t) :
  rls_using schema db c SELECT (t := on_menu_items) i =
  equals_true (MenuItem.is_available i) || admin_caller db c.
Proof.
  unfold equals_true. destruct c; cbn; destruct (MenuItem.is_available i) as [[|]|]; cbn;
    rewrite ?bool_if_id, ?orb_false_r; reflexivity.
Qed.

Lemma rls_select_user_roles (g : UserRole.t) :
  rls_using schema db c SELECT (t := on_user_roles) g =
  match c with
  | Anonymous => false
  | Authenticated u => N.eqb (UserRole.user_id g) u || has_role db (Some u) admin
  end.
Proof.
  destruct c as [|u]; cbn; [reflexivity|].
  destruct (N.eqb (UserRole.user_id g) u), (has_role db (Some u) admin); reflexivity.
Qed.
End SchemaPolicies.

(** ** Lists and statements *)

Lemma filter_all {A : Type} (f : A -> bool) (l : list A) :
  (forall x, In x l -> f x = true) -> filter f l = l.
Proof.
  induction l as [|a l IH]; intros H; simpl; [reflexivity|].
  rewrite (H a (or_introl eq_refl)). f_equal. apply IH. intros x Hx. apply H. right. exact Hx.
Qed.

Lemma filter_none {A : Type} (f : A -> bool) (l : list A) :
  (forall x, In x l -> f x = false) -> filter f l = [].
Proof.
  induction l as [|a l IH]; intros H; simpl; [reflexivity|].
  rewrite (H a (or_introl eq_refl)). apply IH. intros x Hx. apply H. right. exact Hx.
Qed.

Lemma set_rows_same (db : database) (t : table) : set_rows db t (rows_of db t) = db.
Proof. destruct db, t; reflexivity. Qed.

Lemma rows_of_set_rows (db : database) (t : table) (rs : list (row t)) :
  rows_of (set_rows db t rs) t = rs.
Proof. destruct t; reflexivity. Qed.

Lemma check_constraints_ok (db db' : database) :
  check_constraints db = Ok db' -> db' = db.
Proof.
  unfold check_constraints.
  destruct (primary_keys_ok db && slug_unique db && user_roles_unique db); [|discriminate].
  destruct (foreign_keys_ok db); [|discriminate]. congruence.
Qed.

Lemma state_after_check (db : database) : state_after (check_constraints db) db = db.
Proof.
  destruct (check_constraints db) eqn:E; simpl; [|reflexivity].
  apply check_constraints_ok in E. exact E.
Qed.

Lemma update_rows_untargeted cat db c now t (v : values t) where_ (rows : list (row t)) :
  (forall r, In r rows -> targeted cat db c UPDATE where_ r = false) ->
  update_rows cat db c now t v where_ rows = Ok rows.
Proof.
  induction rows as [|r rows IH]; intros H; simpl; [reflexivity|].
  rewrite (H r (or_introl eq_refl)). simpl.
  rewrite IH; [reflexivity|]. intros x Hx. apply H. right. exact Hx.
Qed.

Lemma cascade_menu_categories_nil (db : database) : cascade_menu_categories [] db = db.
Proof.
  unfold cascade_menu_categories. simpl.
  rewrite filter_all by reflexivity. apply (set_rows_same db on_menu_items).
Qed.

Lemma cascade_restaurants_nil (db : database) : cascade_restaurants [] db = db.
Proof.
  unfold cascade_restaurants. simpl.
  rewrite (filter_none (fun _ => false)) by reflexivity.
  rewrite cascade_menu_categories_nil.
  rewrite (filter_all (fun _ : MenuCategory.t => negb false)) by reflexivity.
  rewrite filter_all; [destruct db; reflexivity|].
  intros u _. destruct (UserRole.restaurant_id u); reflexivity.
Qed.

Lemma on_delete_cascade_nil (t : table) (db : database) : on_delete_cascade t [] db = db.
Proof.
  destruct t; simpl;
    [apply cascade_restaurants_nil | apply cascade_menu_categories_nil | reflexivity ..].
Qed.

(** With row-level security enabled, a command that no policy applies to
    gets nothing through. *)
Lemma default_deny cat db c cmd (t : table) (r : row t) :
  rls_enabled cat t = true ->
  (forall p, In p (policies_on cat t) -> applicable cmd c p = false) ->
  rls_using cat db c cmd r = false /\ rls_with_check cat db c cmd r = false.
Proof.
  intros En H. unfold rls_using, rls_with_check. rewrite En.
  split; apply not_true_is_false; rewrite existsb_exists; intros (p & Hp & Hb);
    rewrite (H p Hp) in Hb; discriminate.
Qed.

Section Denied.
Variables (db : database) (c : caller).
Hypothesis not_admin : admin_caller db c = false.

Lemma targeted_denied (cmd : command) (t : table) (where_ : row t -> bool) (r : row t) :
  cmd <> SELECT -> targeted schema db c cmd where_ r = false.
Proof.
  intros H. unfold targeted. rewrite (rls_using_write db c cmd t r H), not_admin.
  apply andb_false_r.
Qed.

Lemma insert_denied now fresh (t : table) (v : values t) :
  state_after (insert_into schema c now fresh t v db) db = db.
Proof.
  unfold insert_into. destruct (new_row t now fresh v) as [NEW|e]; simpl; [|reflexivity].
  rewrite rls_with_check_write by discriminate. rewrite not_admin. reflexivity.
Qed.

Lemma update_denied now (t : table) (v : values t) where_ :
  state_after (update_set schema c now t v where_ db) db = db.
Proof.
  unfold update_set. rewrite update_rows_untargeted.
  - simpl. rewrite set_rows_same. apply state_after_check.
  - intros r _. apply targeted_denied. discriminate.
Qed.

Lemma delete_denied (t : table) where_ :
  state_after (delete_from schema c t where_ db) db = db.
Proof.
  unfold delete_from. simpl.
  rewrite filter_none by (intros r _; apply targeted_denied; discriminate).
  rewrite filter_all
    by (intros r _; rewrite targeted_denied by discriminate; reflexivity).
  rewrite set_rows_same. apply on_delete_cascade_nil.
Qed.
End Denied.

(** C1.  A caller who is anonymous or holds no admin grant cannot write
    to [restaurants], [menu_categories], [menu_items] or [user_roles]: no
    existing row passes USING and no new row passes WITH CHECK for
    INSERT, UPDATE or DELETE, and every such statement leaves the
    database as it was.  A write passes only for an authenticated caller
    for whom [has_role(caller, admin)] holds, and a command to which no
    policy applies is denied because row-level security is enabled on all
    four tables. *)
Theorem writes_require_admin (db : database) (c : caller) :
  c = Anonymous \/ has_role db (auth_uid c) admin = false ->
  (forall (t : table) (cmd : command) (r : row t), cmd <> SELECT ->
     rls_using schema db c cmd r = false /\ rls_with_check schema db c cmd r = false) /\
  (forall (t : table) now fresh (v : values t),
     state_after (insert_into schema c now fresh t v db) db = db) /\
  (forall (t : table) now (v : values t) where_,
     state_after (update_set schema c now t v where_ db) db = db) /\
  (forall (t : table) where_,
     state_after (delete_from schema c t where_ db) db = db) /\
  (forall (c' : caller) (t : table) (cmd : command) (r : row t), cmd <> SELECT ->
     rls_using schema db c' cmd r = true \/ rls_with_check schema db c' cmd r = true ->
     exists u, c' = Authenticated u /\ has_role db (Some u) admin = true) /\
  (forall (t : table), rls_enabled schema t = true) /\
  (forall cat (c' : caller) (t : table) (cmd : command) (r : row t),
     rls_enabled cat t = true ->
     (forall p, In p (policies_on cat t) -> applicable cmd c' p = false) ->
     rls_using cat db c' cmd r = false /\ rls_with_check cat db c' cmd r = false).
Proof.
  intros H. apply not_admin_caller in H.
  split; [|split; [|split; [|split; [|split; [|split]]]]].
  - intros t cmd r Hc. rewrite rls_using_write, rls_with_check_write by exact Hc. auto.
  - intros. apply insert_denied. exact H.
  - intros. apply update_denied. exact H.
  - intros. apply delete_denied. exact H.
  - intros c' t cmd r Hc Hor. apply admin_caller_iff.
    rewrite rls_using_write, rls_with_check_write in Hor by exact Hc. tauto.
  - apply rls_enabled_schema.
  - intros. apply default_deny; assumption.
Qed.

Lemma writes_require_admin_witness :
  (forall (t : table) (cmd : command) (r : row t), cmd <> SELECT ->
     rls_using schema scenario (Authenticated bob) cmd r = false /\
     rls_with_check schema scenario (Authenticated bob) cmd r = false) /\
  state_after
    (delete_from schema (Authenticated bob) on_restaurants (id_eq on_restaurants 1%N) scenario)
    scenario = scenario.
Proof.
  assert (H : Authenticated bob = Anonymous \/
              has_role scenario (auth_uid (Authenticated bob)) admin = false)
    by (right; reflexivity).
  pose proof (writes_require_admin scenario (Authenticated bob) H) as W.
  split; [exact (proj1 W)|].
  exact (proj1 (proj2 (proj2 (proj2 W))) on_restaurants (id_eq on_restaurants 1%N)).
Defined.

(** ** Role grants *)

Lemma has_role_rescoped (db : database) (f : UserRole.t -> option uuid)
    (uid : option uuid) (r : app_role) :
  has_role (set_rows db on_user_roles (map (fun g => with_scope (f g) g) (user_roles db))) uid r =
  has_role db uid r.
Proof.
  unfold has_role. simpl. induction (user_roles db) as [|g l IH]; simpl; [reflexivity|].
  rewrite IH. reflexivity.
Qed.

Lemma admin_passes_everything (db : database) (u : uuid) :
  has_role db (Some u) admin = true ->
  forall (t : table) (cmd : command) (r : row t),
    rls_using schema db (Authenticated u) cmd r = true /\
    rls_with_check schema db (Authenticated u) cmd r = true.
Proof.
  intros H t cmd r. destruct t, cmd; cbn; rewrite H; cbn;
    rewrite ?orb_true_r; split; reflexivity.
Qed.

(** C3.  [has_role(identity, role)] is true exactly when some
    [user_roles] row has that user id and that role; the row's
    [restaurant_id] plays no part, so re-scoping grants never changes the
    answer and an admin grant of any scope lets its holder pass every
    policy on every row of every table.  The function reads the table
    itself, not what the caller may read: with every policy on
    [user_roles] dropped the holder of an admin grant can read no grant
    and still passes the admin policies of the other tables. *)
Theorem has_role_ignores_scope (db : database) (identity : uuid) (r : app_role) :
  (has_role db (Some identity) r = true <->
   exists g, In g (user_roles db) /\ UserRole.user_id g = identity /\ UserRole.role g = r) /\
  (forall f : UserRole.t -> option uuid,
     has_role (set_rows db on_user_roles (map (fun g => with_scope (f g) g) (user_roles db)))
              (Some identity) r
     = has_role db (Some identity) r) /\
  (forall g, In g (user_roles db) -> UserRole.user_id g = identity -> UserRole.role g = admin ->
     forall (t : table) (cmd : command) (x : row t),
       rls_using schema db (Authenticated identity) cmd x = true /\
       rls_with_check schema db (Authenticated identity) cmd x = true) /\
  (forall g, In g (user_roles db) -> UserRole.user_id g = identity -> UserRole.role g = admin ->
     select_from roles_unreadable (Authenticated identity) db on_user_roles (fun _ => true) = [] /\
     forall (t : table) (cmd : command) (x : row t), t <> on_user_roles ->
       rls_using roles_unreadable db (Authenticated identity) cmd x = true /\
       rls_with_check roles_unreadable db (Authenticated identity) cmd x = true).
Proof.
  split; [|split; [|split]].
  - rewrite has_role_iff. split; intros (g & Hin & Hu & Hr); exists g; repeat split; auto.
    + congruence.
    + congruence.
  - intros f. apply has_role_rescoped.
  - intros g Hin Hu Hr. apply admin_passes_everything.
    apply has_role_iff. exists g. repeat split; congruence.
  - intros g Hin Hu Hr.
    assert (H : has_role db (Some identity) admin = true)
      by (apply has_role_iff; exists g; repeat split; congruence).
    split.
    + unfold select_from. apply filter_none. intros x _. reflexivity.
    + intros t cmd x Ht. destruct t, cmd; try congruence; cbn; rewrite H; cbn;
        rewrite ?orb_true_r; split; reflexivity.
Qed.

Lemma has_role_ignores_scope_witness :
  UserRole.restaurant_id alice_admin = Some (Restaurant.id closed_kitchen) /\
  rls_using schema scenario (Authenticated alice) DELETE (t := on_restaurants) pizza_palace
  = true /\
  rls_with_check schema scenario (Authenticated alice) DELETE (t := on_restaurants) pizza_palace
  = true.
Proof.
  split; [reflexivity|].
  apply (proj1 (proj2 (proj2 (has_role_ignores_scope scenario alice admin))) alice_admin).
  - simpl. auto.
  - reflexivity.
  - reflexivity.
Defined.

(** C4.  An authenticated caller all of whose grants have role [user]
    reads from [user_roles] exactly the rows whose [user_id] is the
    caller's own id. *)
Theorem user_reads_own_roles_only (db : database) (me : uuid) :
  (forall g, In g (user_roles db) -> UserRole.user_id g = me -> UserRole.role g = user) ->
  select_from schema (Authenticated me) db on_user_roles (fun _ => true)
  = filter (fun g => N.eqb (UserRole.user_id g) me) (user_roles db) /\
  (forall g, In g (select_from schema (Authenticated me) db on_user_roles (fun _ => true)) <->
             In g (user_roles db) /\ UserRole.user_id g = me).
Proof.
  intros Honly.
  assert (Hna : has_role db (Some me) admin = false).
  { apply not_true_is_false. intros H. apply has_role_iff in H.
    destruct H as (g & Hin & Hu & Hr). injection Hu as Hu.
    specialize (Honly g Hin Hu). congruence. }
  assert (E : select_from schema (Authenticated me) db on_user_roles (fun _ => true)
              = filter (fun g => N.eqb (UserRole.user_id g) me) (user_roles db)).
  { unfold select_from. simpl rows_of. apply filter_ext. intros g.
    rewrite rls_select_user_roles, Hna, orb_false_r, andb_true_r. reflexivity. }
  split; [exact E|].
  intros g. rewrite E, filter_In, N.eqb_eq. reflexivity.
Qed.

Lemma user_reads_own_roles_only_witness :
  select_from schema (Authenticated bob) scenario on_user_roles (fun _ => true) = [bob_user].
Proof.
  refine (eq_trans (proj1 (user_reads_own_roles_only scenario bob _)) eq_refl).
  intros g [<-|[<-|[]]]; simpl; [discriminate|reflexivity].
Defined.

(** ** Reads *)

Lemma equals_true_iff (b : option bool) : equals_true b = true <-> b = Some true.
Proof. destruct b as [[|]|]; cbv; split; congruence. Qed.

Lemma In_insert_sorted {A : Type} (le : A -> A -> bool) (x y : A) (l : list A) :
  In y (insert_sorted le x l) <-> y = x \/ In y l.
Proof.
  induction l as [|a l IH]; simpl.
  - split; intros [H|H]; auto.
  - destruct (le x a); simpl; [|rewrite IH]; split; intros H;
      repeat (destruct H as [H|H]); auto.
Qed.

Lemma In_order_by {A : Type} (le : A -> A -> bool) (y : A) (l : list A) :
  In y (order_by le l) <-> In y l.
Proof.
  unfold order_by. induction l as [|a l IH]; simpl; [reflexivity|].
  rewrite In_insert_sorted, IH. split; intros [H|H]; auto.
Qed.

Lemma In_select_from cat c db (t : table) where_ (r : row t) :
  In r (select_from cat c db t where_) <->
  In r (rows_of db t) /\ rls_using cat db c SELECT r = true /\ where_ r = true.
Proof. unfold select_from. rewrite filter_In, andb_true_iff. reflexivity. Qed.

Lemma In_select_restaurants c db where_ (r : Restaurant.t) :
  In r (select_from schema c db on_restaurants where_) <->
  In r (restaurants db) /\
  (Restaurant.is_active r = Some true \/ admin_caller db c = true) /\ where_ r = true.
Proof.
  rewrite (In_select_from schema c db on_restaurants where_ r), rls_select_restaurants,
    orb_true_iff, equals_true_iff. reflexivity.
Qed.

Lemma In_select_menu_categories c db where_ (k : MenuCategory.t) :
  In k (select_from schema c db on_menu_categories where_) <->
  In k (menu_categories db) /\
  (MenuCategory.is_active k = Some true \/ admin_caller db c = true) /\ where_ k = true.
Proof.
  rewrite (In_select_from schema c db on_menu_categories where_ k), rls_select_menu_categories,
    orb_true_iff, equals_true_iff. reflexivity.
Qed.

Lemma In_select_menu_items c db where_ (i : MenuItem.t) :
  In i (select_from schema c db on_menu_items where_) <->
  In i (menu_items db) /\
  (MenuItem.is_available i = Some true \/ admin_caller db c = true) /\ where_ i = true.
Proof.
  rewrite (In_select_from schema c db on_menu_items where_ i), rls_select_menu_items,
    orb_true_iff, equals_true_iff. reflexivity.
Qed.

Lemma distinct_inj {A B : Type} (eqb : B -> B -> bool) (key : A -> B) (l : list A) :
  (forall b, eqb b b = true) ->
  distinct eqb (map key l) = true ->
  forall x y, In x l -> In y l -> key x = key y -> x = y.
Proof.
  intros Hrefl. induction l as [|a l IH]; simpl; intros Hd x y Hx Hy Hk; [contradiction|].
  apply andb_true_iff in Hd. destruct Hd as [Hn Hd]. apply negb_true_iff in Hn.
  assert (Hfresh : forall z, In z l -> key a <> key z).
  { intros z Hz E. apply not_true_iff_false in Hn. apply Hn. apply existsb_exists.
    exists (key z). split; [apply in_map; exact Hz|]. rewrite E. apply Hrefl. }
  destruct Hx as [<-|Hx], Hy as [<-|Hy]; auto.
  - exfalso. exact (Hfresh y Hy Hk).
  - exfalso. exact (Hfresh x Hx (eq_sym Hk)).
Qed.

Section PublicMenu.
Import RestaurantMenu.
Variables (c : caller) (db : database).

(** The restaurant query of [fetchRestaurantData] finds nothing unless
    an active row carries the slug. *)
Lemma no_active_row_no_result (s : string) :
  (forall r, In r (restaurants db) -> Restaurant.slug r = s ->
             Restaurant.is_active r <> Some true) ->
  select_from schema c db on_restaurants
    (fun r => String.eqb (Restaurant.slug r) s && equals_true (Restaurant.is_active r)) = [].
Proof.
  intros H. unfold select_from. apply filter_none. intros r Hr.
  destruct (String.eqb_spec (Restaurant.slug r) s) as [E|]; simpl;
    [|apply andb_false_r].
  specialize (H r Hr E). destruct (Restaurant.is_active r) as [[|]|] eqn:Ea;
    [congruence| |]; simpl; apply andb_false_r.
Qed.

Lemma fetch_not_found (s : string) (st : state) :
  (forall r, In r (restaurants db) -> Restaurant.slug r = s ->
             Restaurant.is_active r <> Some true) ->
  fetchRestaurantData schema c db s st =
  mkstate (restaurant st) (categories st) (menuItems st) false (activeCategory st)
          (dietFilter st) (toasts st ++ ["Failed to load menu"])%list
          (console st ++ [not_a_single_row 0])%list.
Proof.
  intros H. unfold fetchRestaurantData. rewrite no_active_row_no_result by exact H.
  reflexivity.
Qed.
End PublicMenu.

(** C9.  An anonymous fetch of the public menu by a slug whose row exists
    but is inactive ends in the same page state, with the same error
    report, as a fetch by a slug that no row carries, and both pages show
    "Restaurant not found". *)
Theorem inactive_looks_like_missing (db_inactive db_missing : database)
    (slug : string) (r : Restaurant.t) :
  slug <> "" ->
  slug_unique db_inactive = true ->
  In r (restaurants db_inactive) -> Restaurant.slug r = slug ->
  Restaurant.is_active r <> Some true ->
  (forall x, In x (restaurants db_missing) -> Restaurant.slug x <> slug) ->
  RestaurantMenu.visit schema Anonymous db_inactive slug
  = RestaurantMenu.visit schema Anonymous db_missing slug /\
  RestaurantMenu.render (RestaurantMenu.visit schema Anonymous db_inactive slug)
  = RestaurantMenu.Restaurant_not_found /\
  RestaurantMenu.render (RestaurantMenu.visit schema Anonymous db_missing slug)
  = RestaurantMenu.Restaurant_not_found.
Proof.
  intros Hs Hu Hin Hslug Hoff Hmiss.
  assert (H1 : forall x, In x (restaurants db_inactive) -> Restaurant.slug x = slug ->
                         Restaurant.is_active x <> Some true).
  { intros x Hx Ex.
    rewrite (distinct_inj String.eqb Restaurant.slug (restaurants db_inactive)
               String.eqb_refl Hu x r Hx Hin) by congruence.
    exact Hoff. }
  assert (H2 : forall x, In x (restaurants db_missing) -> Restaurant.slug x = slug ->
                         Restaurant.is_active x <> Some true).
  { intros x Hx Ex. exfalso. exact (Hmiss x Hx Ex). }
  unfold RestaurantMenu.visit.
  destruct (String.eqb_spec slug "") as [E|_]; [contradiction|].
  rewrite !fetch_not_found by assumption.
  repeat split.
Qed.

Lemma inactive_looks_like_missing_witness :
  RestaurantMenu.visit schema Anonymous scenario "closed-kitchen"
  = RestaurantMenu.visit schema Anonymous never_opened "closed-kitchen" /\
  RestaurantMenu.render (RestaurantMenu.visit schema Anonymous scenario "closed-kitchen")
  = RestaurantMenu.Restaurant_not_found /\
  RestaurantMenu.render (RestaurantMenu.visit schema Anonymous never_opened "closed-kitchen")
  = RestaurantMenu.Restaurant_not_found.
Proof.
  apply (inactive_looks_like_missing scenario never_opened "closed-kitchen" closed_kitchen).
  - discriminate.
  - reflexivity.
  - simpl. auto.
  - reflexivity.
  - discriminate.
  - intros x [<-|[]]; discriminate.
Defined.

Lemma filter_the_one {A B : Type} (eqb : B -> B -> bool) (key : A -> B) (p : A -> bool)
    (l : list A) (r : A) :
  (forall b, eqb b b = true) ->
  distinct eqb (map key l) = true ->
  In r l -> p r = true -> (forall x, p x = true -> key x = key r) ->
  filter p l = [r].
Proof.
  intros Hrefl Hd Hin Hp Hkey.
  assert (Hall : forall x, In x (filter p l) -> x = r).
  { intros x Hx. apply filter_In in Hx. destruct Hx as [Hx Hpx].
    apply (distinct_inj eqb key l Hrefl Hd x r Hx Hin). apply Hkey. exact Hpx. }
  clear Hkey. induction l as [|a l IH]; [contradiction|].
  simpl in Hd. apply andb_true_iff in Hd. destruct Hd as [Hn Hd].
  apply negb_true_iff in Hn.
  assert (Hnot : forall z, In z l -> key a <> key z).
  { intros z Hz E. apply not_true_iff_false in Hn. apply Hn. apply existsb_exists.
    exists (key z). split; [apply in_map; exact Hz|]. rewrite E. apply Hrefl. }
  simpl in *. destruct Hin as [->|Hin].
  - rewrite Hp. f_equal. apply filter_none. intros x Hx.
    destruct (p x) eqn:Px; [|reflexivity]. exfalso.
    assert (x = r) by (apply Hall; rewrite Hp; right; apply filter_In; auto).
    subst x. exact (Hnot r Hx eq_refl).
  - destruct (p a) eqn:Pa.
    + exfalso. assert (a = r) by (apply Hall; left; reflexivity). subst a.
      exact (Hnot r Hin eq_refl).
    + apply IH; assumption.
Qed.

Section Found.
Import RestaurantMenu.
Variables (c : caller) (db : database) (r : Restaurant.t).
Hypothesis slugs : slug_unique db = true.
Hypothesis r_in : In r (restaurants db).
Hypothesis r_active : Restaurant.is_active r = Some true.

Lemma the_restaurant_query :
  select_from schema c db on_restaurants
    (fun x => String.eqb (Restaurant.slug x) (Restaurant.slug r) &&
              equals_true (Restaurant.is_active x)) = [r].
Proof.
  unfold select_from. cbn [rows_of].
  apply (filter_the_one String.eqb Restaurant.slug _ _ r String.eqb_refl slugs r_in).
  - rewrite rls_select_restaurants, String.eqb_refl.
    rewrite (proj2 (equals_true_iff _) r_active). reflexivity.
  - intros x Hx. apply andb_true_iff in Hx. destruct Hx as [_ Hx].
    apply andb_true_iff in Hx. destruct Hx as [Hx _]. apply String.eqb_eq. exact Hx.
Qed.

Lemma fetch_finds (st : state) :
  restaurant (fetchRestaurantData schema c db (Restaurant.slug r) st) = Some r /\
  loading (fetchRestaurantData schema c db (Restaurant.slug r) st) = false /\
  toasts (fetchRestaurantData schema c db (Restaurant.slug r) st) = toasts st /\
  console (fetchRestaurantData schema c db (Restaurant.slug r) st) = console st.
Proof.
  unfold fetchRestaurantData. rewrite the_restaurant_query. cbn. auto.
Qed.
End Found.

Section MenuContents.
Import RestaurantMenu.
Variables (c : caller) (db : database).

Lemma fetch_restaurant (s : string) (st : state) (r : Restaurant.t) :
  restaurant st = None ->
  restaurant (fetchRestaurantData schema c db s st) = Some r ->
  In r (restaurants db) /\ Restaurant.slug r = s /\ Restaurant.is_active r = Some true.
Proof.
  intros Hst. unfold fetchRestaurantData.
  destruct (select_from schema c db on_restaurants _) as [|x [|y l]] eqn:E; simpl;
    try (rewrite Hst; discriminate).
  intros H. injection H as <-.
  assert (Hx : In x (select_from schema c db on_restaurants
                (fun r => String.eqb (Restaurant.slug r) s &&
                          equals_true (Restaurant.is_active r))))
    by (rewrite E; left; reflexivity).
  apply In_select_from in Hx. destruct Hx as (Hin & _ & Hw).
  apply andb_true_iff in Hw. destruct Hw as [Hs Ha].
  apply String.eqb_eq in Hs. apply equals_true_iff in Ha. auto.
Qed.

Lemma fetch_categories (s : string) (st : state) (k : MenuCategory.t) :
  categories st = [] -> restaurant st = None ->
  (In k (categories (fetchRestaurantData schema c db s st)) <->
   In k (menu_categories db) /\ MenuCategory.is_active k = Some true /\
   exists r, restaurant (fetchRestaurantData schema c db s st) = Some r /\
             MenuCategory.restaurant_id k = Restaurant.id r).
Proof.
  intros Hc Hr. unfold fetchRestaurantData.
  destruct (select_from schema c db on_restaurants _) as [|x [|y l]]; cbn [single categories restaurant menuItems];
    try (rewrite Hc, Hr; simpl; split; [contradiction|intros (_ & _ & r & H & _); discriminate]).
  rewrite In_order_by, In_select_menu_categories, andb_true_iff, N.eqb_eq, equals_true_iff.
  split.
  - intros (Hin & _ & E & Ha). repeat split; auto. exists x. auto.
  - intros (Hin & Ha & r & Hx & E). injection Hx as <-. auto.
Qed.

Lemma mem_map_iff {A : Type} (key : A -> uuid) (x : uuid) (l : list A) :
  mem x (map key l) = true <-> exists a, In a l /\ x = key a.
Proof.
  unfold mem. rewrite existsb_exists. split.
  - intros (y & Hy & E). apply in_map_iff in Hy. destruct Hy as (a & <- & Ha).
    apply N.eqb_eq in E. eauto.
  - intros (a & Ha & ->). exists (key a). split; [apply in_map; exact Ha|apply N.eqb_refl].
Qed.

Lemma fetch_items (s : string) (st : state) (i : MenuItem.t) :
  menuItems st = [] -> categories st = [] ->
  (In i (menuItems (fetchRestaurantData schema c db s st)) <->
   In i (menu_items db) /\ MenuItem.is_available i = Some true /\
   exists k, In k (categories (fetchRestaurantData schema c db s st)) /\
             MenuItem.category_id i = MenuCategory.id k).
Proof.
  intros Hi Hc. unfold fetchRestaurantData.
  destruct (select_from schema c db on_restaurants _) as [|x [|y l]]; cbn [single categories restaurant menuItems];
    try (rewrite Hi, Hc; simpl; split; [contradiction|intros (_ & _ & k & [] & _)]).
  rewrite In_order_by, In_select_menu_items, andb_true_iff, equals_true_iff, mem_map_iff.
  split.
  - intros (Hin & _ & (k & Hk & E) & Ha). repeat split; auto. exists k. auto.
  - intros (Hin & Ha & k & Hk & E). repeat split; auto. exists k. auto.
Qed.
End MenuContents.

Section FoundBySlug.
Import RestaurantMenu.
Variables (c : caller) (db : database) (slug : string).
Hypothesis slugs : slug_unique db = true.
Hypothesis slug_given : slug <> "".

(** The restaurant, the categories and the items of the menu page, told
    from the database alone. *)
Lemma visit_restaurant_iff (r : Restaurant.t) :
  restaurant (visit schema c db slug) = Some r <->
  In r (restaurants db) /\ Restaurant.slug r = slug /\ Restaurant.is_active r = Some true.
Proof.
  unfold visit. destruct (String.eqb_spec slug "") as [E|_]; [contradiction|]. split.
  - apply fetch_restaurant. reflexivity.
  - intros (Hin & Hs & Ha). subst slug. apply (fetch_finds c db r slugs Hin Ha).
Qed.

Lemma visit_categories_iff (k : MenuCategory.t) :
  In k (categories (visit schema c db slug)) <->
  In k (menu_categories db) /\ MenuCategory.is_active k = Some true /\
  exists r, In r (restaurants db) /\ Restaurant.slug r = slug /\
            Restaurant.is_active r = Some true /\
            MenuCategory.restaurant_id k = Restaurant.id r.
Proof.
  assert (H : In k (categories (visit schema c db slug)) <->
              In k (menu_categories db) /\ MenuCategory.is_active k = Some true /\
              exists r, restaurant (visit schema c db slug) = Some r /\
                        MenuCategory.restaurant_id k = Restaurant.id r).
  { unfold visit. destruct (String.eqb_spec slug "") as [E|_]; [contradiction|].
    apply fetch_categories; reflexivity. }
  rewrite H. split.
  - intros (Hin & Ha & r & Hr & E). repeat split; try assumption. exists r.
    apply visit_restaurant_iff in Hr. tauto.
  - intros (Hin & Ha & r & Hr & Hs & Hra & E). repeat split; try assumption. exists r.
    split; [|exact E]. apply visit_restaurant_iff. tauto.
Qed.

Lemma visit_items_iff (i : MenuItem.t) :
  In i (menuItems (visit schema c db slug)) <->
  In i (menu_items db) /\ MenuItem.is_available i = Some true /\
  exists k r, In k (menu_categories db) /\ MenuCategory.is_active k = Some true /\
              MenuItem.category_id i = MenuCategory.id k /\
              In r (restaurants db) /\ Restaurant.slug r = slug /\
              Restaurant.is_active r = Some true /\
              MenuCategory.restaurant_id k = Restaurant.id r.
Proof.
  assert (H : In i (menuItems (visit schema c db slug)) <->
              In i (menu_items db) /\ MenuItem.is_available i = Some true /\
              exists k, In k (categories (visit schema c db slug)) /\
                        MenuItem.category_id i = MenuCategory.id k).
  { unfold visit. destruct (String.eqb_spec slug "") as [E|_]; [contradiction|].
    apply fetch_items; reflexivity. }
  rewrite H. split.
  - intros (Hin & Ha & k & Hk & E). apply visit_categories_iff in Hk.
    destruct Hk as (Hk & Hka & r & Hr). repeat split; try assumption.
    exists k, r. tauto.
  - intros (Hin & Ha & k & r & Hk & Hka & E & Hr). repeat split; try assumption.
    exists k. split; [|exact E]. apply visit_categories_iff.
    repeat split; try assumption. exists r. exact Hr.
Qed.
End FoundBySlug.

(** C2, as the code has it.  A select on [restaurants] passes exactly
    when the row is active or the caller is a signed-in admin, hence for
    anonymous and non-admin callers exactly when [is_active = true].  For
    every caller the public restaurant list holds exactly the active
    rows, and the public menu fetch finds only an active restaurant, only
    active categories of it and only available items of those.  With
    unique slugs the fetch by a slug returns exactly the active
    restaurant of that slug, exactly its active categories, and a menu
    item exactly when it has [is_available = true] and its category is an
    active category of that restaurant: such an item is returned, and an
    item with [is_available = false] never is. *)
Theorem public_reads (db : database) (c : caller) :
  (forall r : Restaurant.t,
     rls_using schema db c SELECT (t := on_restaurants) r = true <->
     Restaurant.is_active r = Some true \/ admin_caller db c = true) /\
  (admin_caller db c = false ->
   forall r : Restaurant.t,
     rls_using schema db c SELECT (t := on_restaurants) r = true <->
     Restaurant.is_active r = Some true) /\
  (forall st r,
     In r (Restaurants.restaurants (Restaurants.fetchRestaurants schema c db st)) <->
     In r (restaurants db) /\ Restaurant.is_active r = Some true) /\
  (forall slug r,
     RestaurantMenu.restaurant (RestaurantMenu.visit schema c db slug) = Some r ->
     In r (restaurants db) /\ Restaurant.slug r = slug /\ Restaurant.is_active r = Some true) /\
  (forall slug k,
     In k (RestaurantMenu.categories (RestaurantMenu.visit schema c db slug)) <->
     In k (menu_categories db) /\ MenuCategory.is_active k = Some true /\
     exists r, RestaurantMenu.restaurant (RestaurantMenu.visit schema c db slug) = Some r /\
               MenuCategory.restaurant_id k = Restaurant.id r) /\
  (forall slug i,
     In i (RestaurantMenu.menuItems (RestaurantMenu.visit schema c db slug)) <->
     In i (menu_items db) /\ MenuItem.is_available i = Some true /\
     exists k, In k (RestaurantMenu.categories (RestaurantMenu.visit schema c db slug)) /\
               MenuItem.category_id i = MenuCategory.id k) /\
  (slug_unique db = true ->
   forall slug, slug <> "" ->
     (forall r,
        RestaurantMenu.restaurant (RestaurantMenu.visit schema c db slug) = Some r <->
        In r (restaurants db) /\ Restaurant.slug r = slug /\
        Restaurant.is_active r = Some true) /\
     (forall k,
        In k (RestaurantMenu.categories (RestaurantMenu.visit schema c db slug)) <->
        In k (menu_categories db) /\ MenuCategory.is_active k = Some true /\
        exists r, In r (restaurants db) /\ Restaurant.slug r = slug /\
                  Restaurant.is_active r = Some true /\
                  MenuCategory.restaurant_id k = Restaurant.id r) /\
     (forall i,
        In i (RestaurantMenu.menuItems (RestaurantMenu.visit schema c db slug)) <->
        In i (menu_items db) /\ MenuItem.is_available i = Some true /\
        exists k r, In k (menu_categories db) /\ MenuCategory.is_active k = Some true /\
                    MenuItem.category_id i = MenuCategory.id k /\
                    In r (restaurants db) /\ Restaurant.slug r = slug /\
                    Restaurant.is_active r = Some true /\
                    MenuCategory.restaurant_id k = Restaurant.id r)).
Proof.
  assert (Hsel : forall r : Restaurant.t,
            rls_using schema db c SELECT (t := on_restaurants) r = true <->
            Restaurant.is_active r = Some true \/ admin_caller db c = true).
  { intros r. rewrite rls_select_restaurants, orb_true_iff, equals_true_iff. reflexivity. }
  split; [exact Hsel|]. split; [|split; [|split; [|split; [|split]]]].
  - intros Hna r. rewrite Hsel, Hna. split; [intros [H|H]; [exact H|discriminate]|auto].
  - intros st r. unfold Restaurants.fetchRestaurants. simpl.
    rewrite In_order_by, In_select_restaurants, equals_true_iff. tauto.
  - intros slug r. unfold RestaurantMenu.visit.
    destruct (String.eqb slug ""); [discriminate|]. apply fetch_restaurant. reflexivity.
  - intros slug k. unfold RestaurantMenu.visit.
    destruct (String.eqb slug "").
    + simpl. split; [contradiction|intros (_ & _ & r & H & _); discriminate].
    + apply fetch_categories; reflexivity.
  - intros slug i. unfold RestaurantMenu.visit.
    destruct (String.eqb slug "").
    + simpl. split; [contradiction|intros (_ & _ & k & [] & _)].
    + apply fetch_items; reflexivity.
  - intros Hu slug Hs. split; [|split].
    + intros r. apply visit_restaurant_iff; assumption.
    + intros k. apply visit_categories_iff; assumption.
    + intros i. apply visit_items_iff; assumption.
Qed.

(** C2 as stated fails: an admin's select passes on an inactive
    restaurant row, and an available item of an inactive category is not
    in the public menu. *)
Lemma admin_reads_inactive_restaurant :
  Restaurant.is_active closed_kitchen = Some false /\
  rls_using schema scenario (Authenticated alice) SELECT (t := on_restaurants) closed_kitchen
  = true /\
  select_from schema (Authenticated alice) scenario on_restaurants (fun _ => true)
  = [pizza_palace; closed_kitchen] /\
  MenuItem.is_available truffle_pizza = Some true /\
  RestaurantMenu.menuItems (RestaurantMenu.visit schema Anonymous scenario "pizza-palace")
  = [garlic_bread].
Proof. repeat split. Qed.

Lemma public_reads_witness :
  (rls_using schema scenario Anonymous SELECT (t := on_restaurants) closed_kitchen = true <->
   Restaurant.is_active closed_kitchen = Some true) /\
  RestaurantMenu.restaurant (RestaurantMenu.visit schema Anonymous scenario "pizza-palace")
  = Some pizza_palace /\
  In starters
     (RestaurantMenu.categories (RestaurantMenu.visit schema Anonymous scenario "pizza-palace")) /\
  In garlic_bread
     (RestaurantMenu.menuItems (RestaurantMenu.visit schema Anonymous scenario "pizza-palace")).
Proof.
  pose proof (public_reads scenario Anonymous) as (_ & H2 & _ & _ & _ & _ & H7).
  assert (Hs : "pizza-palace" <> "") by discriminate.
  destruct (H7 eq_refl "pizza-palace" Hs) as (Hr & Hk & Hi).
  split; [apply H2; reflexivity|]. split; [|split].
  - apply Hr. simpl. auto.
  - apply Hk. split; [simpl; auto|]. split; [reflexivity|].
    exists pizza_palace. simpl. auto.
  - apply Hi. split; [simpl; auto|]. split; [reflexivity|].
    exists starters, pizza_palace. simpl. repeat split; auto.
Defined.

(** ** Timestamps *)

Lemma update_rows_spec cat db c now (t : table) (v : values t) where_ rows rows' :
  update_rows cat db c now t v where_ rows = Ok rows' ->
  Forall2 (row_updated cat db c now t v where_) rows rows'.
Proof.
  revert rows'. induction rows as [|OLD rows IH]; simpl; intros rows' H.
  - injection H as <-. constructor.
  - destruct (targeted cat db c UPDATE where_ OLD) eqn:T.
    + destruct (assign t v OLD) as [a|e] eqn:A; simpl in H; [|discriminate].
      destruct (rls_with_check cat db c UPDATE (before_update t now a)) eqn:W;
        simpl in H; [|discriminate].
      destruct (update_rows cat db c now t v where_ rows) as [rest|e]; simpl in H;
        [|discriminate].
      injection H as <-. constructor; [|apply IH; reflexivity].
      unfold row_updated. rewrite T. exists a. auto.
    + simpl in H.
      destruct (update_rows cat db c now t v where_ rows) as [rest|e]; simpl in H;
        [|discriminate].
      injection H as <-. constructor; [|apply IH; reflexivity].
      unfold row_updated. rewrite T. reflexivity.
Qed.

Lemma update_set_spec cat c now (t : table) (v : values t) where_ db db' :
  update_set cat c now t v where_ db = Ok db' ->
  Forall2 (row_updated cat db c now t v where_) (rows_of db t) (rows_of db' t).
Proof.
  unfold update_set.
  destruct (update_rows cat db c now t v where_ (rows_of db t)) as [rows|e] eqn:E; simpl;
    [|discriminate].
  intros H. apply check_constraints_ok in H. subst db'. rewrite rows_of_set_rows.
  apply update_rows_spec. exact E.
Qed.

Lemma bind_ok {A B : Type} (r : result A) (k : A -> result B) (b : B) :
  bind r k = Ok b -> exists a, r = Ok a /\ k a = Ok b.
Proof. destruct r as [a|e]; simpl; [eauto|discriminate]. Qed.

Ltac bind_inv H :=
  repeat match type of H with
         | bind _ _ = Ok _ =>
             let a := fresh "a" in
             let E := fresh "E" in
             apply bind_ok in H; destruct H as (a & E & H)
         end.

Lemma assign_created_at (t : table) (v : values t) (OLD a : row t) :
  assign t v OLD = Ok a ->
  created_at_of t a = given (created_at_given t v) (created_at_of t OLD).
Proof.
  destruct t; simpl; intros H;
    [unfold Restaurant.assign in H | unfold MenuCategory.assign in H
    | unfold MenuItem.assign in H | unfold UserRole.assign in H];
    bind_inv H; injection H as <-; reflexivity.
Qed.

Lemma new_row_created_at (t : table) now fresh (v : values t) (NEW : row t) :
  new_row t now fresh v = Ok NEW ->
  created_at_of t NEW = given (created_at_given t v) (Some now).
Proof.
  destruct t; simpl; intros H;
    [unfold Restaurant.new_row in H | unfold MenuCategory.new_row in H
    | unfold MenuItem.new_row in H | unfold UserRole.new_row in H];
    bind_inv H; injection H as <-; reflexivity.
Qed.

Lemma before_update_created_at (t : table) now (a : row t) :
  created_at_of t (before_update t now a) = created_at_of t a.
Proof. destruct t; reflexivity. Qed.

Lemma before_update_updated_at (t : table) now (a : row t) :
  t <> on_user_roles -> updated_at_of t (before_update t now a) = Some now.
Proof. destruct t; try reflexivity. congruence. Qed.

Lemma insert_into_spec cat c now fresh (t : table) (v : values t) db db' :
  insert_into cat c now fresh t v db = Ok db' ->
  exists NEW, new_row t now fresh v = Ok NEW /\
              rls_with_check cat db c INSERT NEW = true /\
              db' = set_rows db t (rows_of db t ++ [NEW])%list /\
              check_constraints db' = Ok db'.
Proof.
  unfold insert_into. intros H. bind_inv H. exists a. split; [exact E|].
  destruct (rls_with_check cat db c INSERT a); [|discriminate].
  pose proof (check_constraints_ok _ _ H) as ->. auto.
Qed.

(** C5, as the code has it.  On [restaurants], [menu_categories] and
    [menu_items], every row an UPDATE changes gets [updated_at = now()]
    whatever the SET list holds, so the new value is not earlier than the
    previous one whenever the previous one is not later than [now()];
    [created_at] keeps its value unless the SET list assigns it.  An
    INSERT stores [now()] as [created_at] unless the caller gives one. *)
Theorem update_stamps_now (t : table) :
  t <> on_user_roles ->
  (forall c now (v : values t) where_ db db',
     update_set schema c now t v where_ db = Ok db' ->
     Forall2 (fun OLD NEW =>
                if targeted schema db c UPDATE where_ OLD
                then updated_at_of t NEW = Some now /\
                     (forall prev, updated_at_of t OLD = Some prev -> prev <= now ->
                        exists new, updated_at_of t NEW = Some new /\ prev <= new) /\
                     (created_at_given t v = None ->
                        created_at_of t NEW = created_at_of t OLD)
                else NEW = OLD)
             (rows_of db t) (rows_of db' t)) /\
  (forall c now fresh (v : values t) db db',
     insert_into schema c now fresh t v db = Ok db' ->
     exists NEW, rows_of db' t = (rows_of db t ++ [NEW])%list /\
                 (created_at_given t v = None -> created_at_of t NEW = Some now)).
Proof.
  intros Ht. split.
  - intros c now v where_ db db' H. apply update_set_spec in H.
    eapply Forall2_impl; [|exact H]. intros OLD NEW. unfold row_updated.
    destruct (targeted schema db c UPDATE where_ OLD); [|auto].
    intros (a & Ha & -> & _). split; [|split].
    + apply before_update_updated_at. exact Ht.
    + intros prev _ Hle. exists now. split; [|exact Hle].
      apply before_update_updated_at. exact Ht.
    + intros Hg. rewrite before_update_created_at, (assign_created_at t v OLD a Ha), Hg.
      reflexivity.
  - intros c now fresh v db db' H. apply insert_into_spec in H.
    destruct H as (NEW & Hn & _ & -> & _). exists NEW. split.
    + apply rows_of_set_rows.
    + intros Hg. rewrite (new_row_created_at t now fresh v NEW Hn), Hg. reflexivity.
Qed.

Lemma update_stamps_now_witness :
  Forall2 (fun OLD NEW =>
             if targeted schema scenario (Authenticated alice) UPDATE
                         (id_eq on_menu_items 100%N) OLD
             then updated_at_of on_menu_items NEW = Some 2000 /\
                  (forall prev, updated_at_of on_menu_items OLD = Some prev -> prev <= 2000 ->
                     exists new, updated_at_of on_menu_items NEW = Some new /\ prev <= new) /\
                  (created_at_given on_menu_items hide_item = None ->
                     created_at_of on_menu_items NEW = created_at_of on_menu_items OLD)
             else NEW = OLD)
          (rows_of scenario on_menu_items)
          (rows_of (state_after hide_garlic_bread scenario) on_menu_items).
Proof.
  assert (Ht : on_menu_items <> on_user_roles) by discriminate.
  apply (proj1 (update_stamps_now on_menu_items Ht) (Authenticated alice) 2000 hide_item
           (id_eq on_menu_items 100%N) scenario (state_after hide_garlic_bread scenario)).
  reflexivity.
Defined.

(** C5 as stated fails: an UPDATE may assign [created_at], and a row
    inserted with a later [updated_at] gets an earlier one on update. *)
Lemma update_rewrites_created_at :
  (exists db', backdate_pizza_palace = Ok db' /\
               map Restaurant.created_at (restaurants scenario) = [Some 1000; Some 1000] /\
               map Restaurant.created_at (restaurants db') = [Some 5; Some 1000]) /\
  (exists db1 db2, insert_postdated = Ok db1 /\ rename_postdated = Ok db2 /\
               map Restaurant.updated_at (restaurants db1) = [Some 1000; Some 1000; Some 5000] /\
               map Restaurant.updated_at (restaurants db2) = [Some 1000; Some 1000; Some 2000]).
Proof.
  split.
  - exists (state_after backdate_pizza_palace scenario). repeat split.
  - exists (state_after insert_postdated scenario), (state_after rename_postdated scenario).
    repeat split.
Qed.

(** ** Deleting a restaurant *)

Section DeleteRestaurant.
Variables (db : database) (c : caller) (rid : uuid) (r : Restaurant.t).
Hypothesis is_admin : admin_caller db c = true.
Hypothesis r_in : In r (restaurants db).
Hypothesis r_id : Restaurant.id r = rid.

Lemma admin_targets (cmd : command) (t : table) (where_ : row t -> bool) (x : row t) :
  targeted schema db c cmd where_ x = where_ x.
Proof.
  apply admin_caller_iff in is_admin. destruct is_admin as (u & -> & Hu).
  unfold targeted.
  rewrite (proj1 (admin_passes_everything db u Hu t SELECT x)),
          (proj1 (admin_passes_everything db u Hu t cmd x)).
  rewrite !andb_true_r. reflexivity.
Qed.

Lemma mem_deleted_ids (x : uuid) :
  mem x (map Restaurant.id (filter (id_eq on_restaurants rid) (restaurants db))) = N.eqb x rid.
Proof.
  destruct (N.eqb_spec x rid) as [->|Hne].
  - apply mem_map_iff. exists r. split; [|symmetry; exact r_id].
    apply filter_In. split; [exact r_in|]. unfold id_eq. simpl. rewrite r_id. apply N.eqb_refl.
  - apply not_true_is_false. intros H. apply mem_map_iff in H.
    destruct H as (a & Ha & ->). apply filter_In in Ha. destruct Ha as [_ Ha].
    unfold id_eq in Ha. simpl in Ha. apply N.eqb_eq in Ha. contradiction.
Qed.

Lemma delete_restaurant_result :
  delete_from schema c on_restaurants (id_eq on_restaurants rid) db =
  Ok (mkdb (auth_users db)
           (filter (fun x => negb (N.eqb (Restaurant.id x) rid)) (restaurants db))
           (filter (fun k => negb (refers_to rid k)) (menu_categories db))
           (filter (fun i => negb (mem (MenuItem.category_id i)
                                       (map MenuCategory.id (categories_of db rid))))
                   (menu_items db))
           (filter (fun g => negb (scoped_to rid g)) (user_roles db))).
Proof.
  unfold delete_from. f_equal. cbn [rows_of on_delete_cascade].
  rewrite (filter_ext _ (id_eq on_restaurants rid))
    by (intros x; apply admin_targets).
  rewrite (filter_ext (fun x => negb (targeted schema db c DELETE (id_eq on_restaurants rid) x))
                      (fun x => negb (N.eqb (Restaurant.id x) rid)))
    by (intros x; rewrite admin_targets; reflexivity).
  unfold cascade_restaurants, cascade_menu_categories, categories_of. cbn.
  f_equal.
  - apply filter_ext. intros k. rewrite mem_deleted_ids. reflexivity.
  - apply filter_ext. intros i. unfold mem. f_equal. f_equal. f_equal.
    apply filter_ext. intros k. apply mem_deleted_ids.
  - apply filter_ext. intros g. unfold scoped_to.
    destruct (UserRole.restaurant_id g); [rewrite mem_deleted_ids|]; reflexivity.
Qed.
End DeleteRestaurant.

Lemma refers_to_iff (rid : uuid) (k : MenuCategory.t) :
  refers_to rid k = true <-> MenuCategory.restaurant_id k = rid.
Proof. apply N.eqb_eq. Qed.

Lemma scoped_to_iff (rid : uuid) (g : UserRole.t) :
  scoped_to rid g = true <-> UserRole.restaurant_id g = Some rid.
Proof.
  unfold scoped_to. destruct (UserRole.restaurant_id g) as [s|].
  - rewrite N.eqb_eq. split; congruence.
  - split; discriminate.
Qed.

Lemma negb_true_not (b : bool) (P : Prop) : (b = true <-> P) -> (negb b = true <-> ~ P).
Proof.
  intros [H1 H2]. destruct b; simpl; split; intros H.
  - discriminate.
  - exfalso. apply H. apply H1. reflexivity.
  - intros HP. apply H2 in HP. discriminate.
  - reflexivity.
Qed.

Lemma kept_length {A : Type} (f : A -> bool) (l : list A) :
  (List.length (filter (fun x => negb (f x)) l) + List.length (filter f l))%nat = List.length l.
Proof.
  induction l as [|a l IH]; simpl; [reflexivity|].
  destruct (f a); simpl; lia.
Qed.

(** Referential integrity survives the cascade. *)
Lemma foreign_keys_after_delete (db : database) (rid : uuid) :
  foreign_keys_ok db = true ->
  foreign_keys_ok
    (mkdb (auth_users db)
          (filter (fun x => negb (N.eqb (Restaurant.id x) rid)) (restaurants db))
          (filter (fun k => negb (refers_to rid k)) (menu_categories db))
          (filter (fun i => negb (mem (MenuItem.category_id i)
                                      (map MenuCategory.id (categories_of db rid))))
                  (menu_items db))
          (filter (fun g => negb (scoped_to rid g)) (user_roles db))) = true.
Proof.
  unfold foreign_keys_ok. cbn [auth_users restaurants menu_categories menu_items user_roles].
  rewrite !andb_true_iff, !forallb_forall. intros [[Hk Hi] Hg].
  assert (Hstay : forall s, s <> rid ->
            mem s (map Restaurant.id (restaurants db)) = true ->
            mem s (map Restaurant.id
                     (filter (fun x => negb (N.eqb (Restaurant.id x) rid)) (restaurants db)))
            = true).
  { intros s Hs H. apply mem_map_iff in H. destruct H as (x & Hx & ->).
    apply mem_map_iff. exists x. split; [|reflexivity].
    apply filter_In. split; [exact Hx|]. apply negb_true_iff, N.eqb_neq. exact Hs. }
  repeat split.
  - intros k Hin. apply filter_In in Hin. destruct Hin as [Hin Hn].
    apply negb_true_iff in Hn. apply N.eqb_neq in Hn. apply Hstay; auto.
  - intros i Hin. apply filter_In in Hin. destruct Hin as [Hin Hn].
    apply negb_true_iff in Hn.
    specialize (Hi i Hin). apply mem_map_iff in Hi. destruct Hi as (k & Hkin & E).
    apply mem_map_iff. exists k. split; [|exact E].
    apply filter_In. split; [exact Hkin|].
    destruct (refers_to rid k) eqn:R; [|reflexivity]. exfalso.
    apply not_true_iff_false in Hn. apply Hn. apply mem_map_iff. exists k.
    split; [|exact E]. apply filter_In. auto.
  - intros g Hin. apply filter_In in Hin. destruct Hin as [Hin Hn].
    specialize (Hg g Hin). apply andb_true_iff in Hg. destruct Hg as [Hu Hs].
    rewrite Hu. simpl. unfold scoped_to in Hn.
    destruct (UserRole.restaurant_id g) as [s|]; [|reflexivity].
    apply negb_true_iff, N.eqb_neq in Hn. apply Hstay; auto.
Qed.

(** C6.  When an admin deletes a restaurant, the one DELETE statement
    yields a database in which exactly the categories of other
    restaurants and the items of the surviving categories remain: the N
    categories of the restaurant and the M items of those categories are
    gone, nothing else is, and no remaining category or item refers to a
    deleted row. *)
Theorem delete_restaurant_cascades (db : database) (c : caller) (r : Restaurant.t) :
  admin_caller db c = true ->
  In r (restaurants db) ->
  exists db',
    delete_from schema c on_restaurants (id_eq on_restaurants (Restaurant.id r)) db = Ok db' /\
    (forall x, In x (restaurants db') <->
               In x (restaurants db) /\ Restaurant.id x <> Restaurant.id r) /\
    (forall k, In k (menu_categories db') <->
               In k (menu_categories db) /\ MenuCategory.restaurant_id k <> Restaurant.id r) /\
    (forall i, In i (menu_items db') <->
               In i (menu_items db) /\
               forall k, In k (categories_of db (Restaurant.id r)) ->
                         MenuItem.category_id i <> MenuCategory.id k) /\
    (List.length (menu_categories db') + List.length (menu_items db')
     + (List.length (categories_of db (Restaurant.id r))
        + List.length (items_under db (categories_of db (Restaurant.id r))))
     = List.length (menu_categories db) + List.length (menu_items db))%nat /\
    (foreign_keys_ok db = true -> foreign_keys_ok db' = true).
Proof.
  intros Hadm Hin. eexists. split; [apply (delete_restaurant_result db c _ r Hadm Hin eq_refl)|].
  cbn [restaurants menu_categories menu_items].
  split; [|split; [|split; [|split]]].
  - intros x. rewrite filter_In. rewrite (negb_true_not _ _ (N.eqb_eq _ _)). reflexivity.
  - intros k. rewrite filter_In. rewrite (negb_true_not _ _ (refers_to_iff _ _)). reflexivity.
  - intros i. rewrite filter_In. rewrite (negb_true_not _ _ (mem_map_iff _ _ _)).
    split; intros [H1 H2]; (split; [exact H1|]).
    + intros k Hk E. apply H2. exists k. auto.
    + intros (k & Hk & E). exact (H2 k Hk E).
  - pose proof (kept_length (refers_to (Restaurant.id r)) (menu_categories db)) as L1.
    pose proof (kept_length
                  (fun i => mem (MenuItem.category_id i)
                                (map MenuCategory.id (categories_of db (Restaurant.id r))))
                  (menu_items db)) as L2.
    unfold items_under, categories_of in *. lia.
  - apply foreign_keys_after_delete.
Qed.

(** C10.  The same DELETE also removes every [user_roles] row whose
    [restaurant_id] is the deleted restaurant, and no other grant. *)
Theorem delete_restaurant_revokes_scoped_grants (db : database) (c : caller) (r : Restaurant.t) :
  admin_caller db c = true ->
  In r (restaurants db) ->
  exists db',
    delete_from schema c on_restaurants (id_eq on_restaurants (Restaurant.id r)) db = Ok db' /\
    (forall g, In g (user_roles db') <->
               In g (user_roles db) /\ UserRole.restaurant_id g <> Some (Restaurant.id r)).
Proof.
  intros Hadm Hin. eexists. split; [apply (delete_restaurant_result db c _ r Hadm Hin eq_refl)|].
  cbn [user_roles]. intros g.
  rewrite filter_In. rewrite (negb_true_not _ _ (scoped_to_iff _ _)). reflexivity.
Qed.

Lemma delete_restaurant_cascades_witness :
  exists db',
    delete_from schema (Authenticated alice) on_restaurants
                (id_eq on_restaurants (Restaurant.id pizza_palace)) scenario = Ok db' /\
    (forall x, In x (restaurants db') <->
               In x (restaurants scenario) /\ Restaurant.id x <> Restaurant.id pizza_palace) /\
    (forall k, In k (menu_categories db') <->
               In k (menu_categories scenario) /\
               MenuCategory.restaurant_id k <> Restaurant.id pizza_palace) /\
    (forall i, In i (menu_items db') <->
               In i (menu_items scenario) /\
               forall k, In k (categories_of scenario (Restaurant.id pizza_palace)) ->
                         MenuItem.category_id i <> MenuCategory.id k) /\
    (List.length (menu_categories db') + List.length (menu_items db')
     + (List.length (categories_of scenario (Restaurant.id pizza_palace))
        + List.length (items_under scenario
                         (categories_of scenario (Restaurant.id pizza_palace))))
     = List.length (menu_categories scenario) + List.length (menu_items scenario))%nat /\
    (foreign_keys_ok scenario = true -> foreign_keys_ok db' = true).
Proof.
  apply (delete_restaurant_cascades scenario (Authenticated alice) pizza_palace).
  - reflexivity.
  - simpl. auto.
Defined.

Lemma delete_restaurant_revokes_scoped_grants_witness :
  exists db',
    delete_from schema (Authenticated alice) on_restaurants
                (id_eq on_restaurants (Restaurant.id closed_kitchen)) scenario = Ok db' /\
    (forall g, In g (user_roles db') <->
               In g (user_roles scenario) /\
               UserRole.restaurant_id g <> Some (Restaurant.id closed_kitchen)).
Proof.
  apply (delete_restaurant_revokes_scoped_grants scenario (Authenticated alice) closed_kitchen).
  - reflexivity.
  - simpl. auto.
Defined.

(** ** Uniqueness of grants *)

Lemma non_null_app {A : Type} (l1 l2 : list (option A)) :
  non_null (l1 ++ l2) = (non_null l1 ++ non_null l2)%list.
Proof.
  induction l1 as [|[a|] l1 IH]; simpl; [reflexivity| |exact IH].
  rewrite IH. reflexivity.
Qed.

(** C7, on the code.  The UNIQUE constraint never sees a grant whose
    [restaurant_id] is NULL: adding such a row leaves the constraint's
    verdict as it was.  So the same global grant is accepted twice and
    the table then holds the triple (Carol, admin, NULL) two times,
    while the second grant of the same role for the same restaurant is
    rejected.  With the doubled grant [has_role] holds for Carol, yet the
    admin page, which asks for the single admin row of the user, turns
    her away. *)
Theorem duplicate_global_grant_accepted :
  (forall db (NEW : UserRole.t), UserRole.restaurant_id NEW = None ->
     user_roles_unique (set_rows db on_user_roles (user_roles db ++ [NEW])%list)
     = user_roles_unique db) /\
  (exists db', grant_twice global_grant = Ok db' /\
               map grant_triple (user_roles db')
               = [(alice, admin, Some 2%N); (bob, user, None);
                  (carol, admin, None); (carol, admin, None)] /\
               has_role db' (Some carol) admin = true /\
               Admin.isAdmin (Admin.checkAdminAccess schema (Authenticated carol) db'
                                                     Admin.initial) = false) /\
  grant_twice scoped_grant = Err unique_violation.
Proof.
  split; [|split].
  - intros db NEW H. unfold user_roles_unique. simpl.
    rewrite map_app, non_null_app. simpl. unfold role_key at 2. rewrite H. simpl.
    rewrite app_nil_r. reflexivity.
  - exists (state_after (grant_twice global_grant) scenario). repeat split.
  - reflexivity.
Qed.

(** * Further properties of the store *)

(** ** The migration of the [user_roles] read policy *)

(** X1.  Migration 20251206101226 changes no decision: for every caller,
    command, table and row, USING and WITH CHECK give the same verdict
    before and after it, because the admin policy FOR ALL already let
    admins read every grant. *)
Theorem migration_keeps_decisions (db : database) (c : caller) (cmd : command)
    (t : table) (r : row t) :
  rls_using (migration_create_schema no_policies) db c cmd r = rls_using schema db c cmd r /\
  rls_with_check (migration_create_schema no_policies) db c cmd r
  = rls_with_check schema db c cmd r.
Proof.
  destruct t; try (split; reflexivity).
  destruct cmd, c as [|u]; try (split; reflexivity); cbn;
    destruct (N.eqb (UserRole.user_id r) u), (has_role db (Some u) admin); split; reflexivity.
Qed.

(** ** Who reads what *)

Lemma admin_selects_all (db : database) (u : uuid) (t : table) (where_ : row t -> bool) :
  has_role db (Some u) admin = true ->
  select_from schema (Authenticated u) db t where_ = filter where_ (rows_of db t).
Proof.
  intros H. unfold select_from. apply filter_ext. intros r.
  rewrite (proj1 (admin_passes_everything db u H t SELECT r)). reflexivity.
Qed.

(** X2.  Grants are private: an anonymous caller reads no row of
    [user_roles] whatever the query, a signed-in caller without admin
    grant reads only rows of their own, and an admin reads every row the
    query asks for. *)
Theorem grants_are_private (db : database) (where_ : UserRole.t -> bool) :
  select_from schema Anonymous db on_user_roles where_ = [] /\
  (forall u g, has_role db (Some u) admin = false ->
     In g (select_from schema (Authenticated u) db on_user_roles where_) ->
     UserRole.user_id g = u) /\
  (forall u, has_role db (Some u) admin = true ->
     select_from schema (Authenticated u) db on_user_roles where_
     = filter where_ (user_roles db)).
Proof.
  split; [|split].
  - unfold select_from. apply filter_none. intros g _. reflexivity.
  - intros u g Hna Hin.
    apply (In_select_from schema (Authenticated u) db on_user_roles where_ g) in Hin.
    destruct Hin as (_ & Hrls & _). rewrite rls_select_user_roles, Hna, orb_false_r in Hrls.
    apply N.eqb_eq. exact Hrls.
  - intros u H. apply (admin_selects_all db u on_user_roles where_ H).
Qed.

(** X3.  Hidden menu rows stay hidden from the public whatever the query: a
    caller without admin grant gets from [menu_categories] exactly the
    active rows the query asks for and from [menu_items] exactly the
    available ones; an admin gets every row asked for, hidden or not. *)
Theorem hidden_rows_need_admin (db : database) (c : caller) :
  (admin_caller db c = false ->
   (forall where_,
      select_from schema c db on_menu_categories where_
      = filter (fun k => equals_true (MenuCategory.is_active k) && where_ k)
               (menu_categories db)) /\
   (forall where_,
      select_from schema c db on_menu_items where_
      = filter (fun i => equals_true (MenuItem.is_available i) && where_ i)
               (menu_items db))) /\
  (admin_caller db c = true ->
   forall (t : table) where_, select_from schema c db t where_ = filter where_ (rows_of db t)).
Proof.
  split.
  - intros Hna. split; intros where_; unfold select_from; apply filter_ext; intros x;
      [rewrite rls_select_menu_categories | rewrite rls_select_menu_items];
      rewrite Hna, orb_false_r; reflexivity.
  - intros Ha t where_. apply admin_caller_iff in Ha. destruct Ha as (u & -> & Hu).
    apply admin_selects_all. exact Hu.
Qed.

(** ** Deletes and their consequences *)

Lemma has_role_false_iff (db : database) (u : uuid) (r : app_role) :
  has_role db (Some u) r = false <->
  forall g, In g (user_roles db) -> UserRole.user_id g = u -> UserRole.role g <> r.
Proof.
  split.
  - intros H g Hin Hu Hr. apply not_true_iff_false in H. apply H.
    apply has_role_iff. exists g. repeat split; congruence.
  - intros H. apply not_true_iff_false. intros Hr. apply has_role_iff in Hr.
    destruct Hr as (g & Hin & Hu & Hr). injection Hu as Hu. exact (H g Hin Hu Hr).
Qed.

(** X4.  An admin whose admin grants are all scoped to one restaurant loses
    the admin role by deleting that restaurant: the cascade removes the
    grants, and the caller's next write is denied. *)
Theorem deleting_restaurant_can_revoke_own_admin (db : database) (u : uuid)
    (r : Restaurant.t) :
  has_role db (Some u) admin = true ->
  In r (restaurants db) ->
  (forall g, In g (user_roles db) -> UserRole.user_id g = u -> UserRole.role g = admin ->
             UserRole.restaurant_id g = Some (Restaurant.id r)) ->
  exists db',
    delete_from schema (Authenticated u) on_restaurants
                (id_eq on_restaurants (Restaurant.id r)) db = Ok db' /\
    has_role db' (Some u) admin = false /\
    (forall (t : table) (cmd : command) (x : row t), cmd <> SELECT ->
       rls_using schema db' (Authenticated u) cmd x = false /\
       rls_with_check schema db' (Authenticated u) cmd x = false).
Proof.
  intros Hadm Hin Hall. eexists.
  split; [apply (delete_restaurant_result db (Authenticated u) _ r Hadm Hin eq_refl)|].
  match goal with |- has_role ?d _ _ = false /\ _ =>
    assert (Hno : has_role d (Some u) admin = false) end.
  { apply has_role_false_iff. cbn [user_roles]. intros g Hg Hu Hr.
    apply filter_In in Hg. destruct Hg as [Hg Hs].
    apply negb_true_iff in Hs. apply not_true_iff_false in Hs. apply Hs.
    apply scoped_to_iff. apply Hall; assumption. }
  split; [exact Hno|].
  intros t cmd x Hc. rewrite rls_using_write, rls_with_check_write by exact Hc.
  simpl. rewrite Hno. auto.
Qed.

Lemma deleting_restaurant_can_revoke_own_admin_witness :
  exists db',
    delete_from schema (Authenticated alice) on_restaurants
                (id_eq on_restaurants (Restaurant.id closed_kitchen)) scenario = Ok db' /\
    has_role db' (Some alice) admin = false /\
    (forall (t : table) (cmd : command) (x : row t), cmd <> SELECT ->
       rls_using schema db' (Authenticated alice) cmd x = false /\
       rls_with_check schema db' (Authenticated alice) cmd x = false).
Proof.
  apply (deleting_restaurant_can_revoke_own_admin scenario alice closed_kitchen).
  - reflexivity.
  - simpl. auto.
  - intros g [<-|[<-|[]]] Hu Hr; [reflexivity|discriminate].
Defined.

Lemma mem_ids_of_filter {A : Type} (key : A -> uuid) (l : list A) (a : A) (x : uuid) :
  In a l ->
  mem x (map key (filter (fun y => N.eqb (key y) (key a)) l)) = N.eqb x (key a).
Proof.
  intros Ha. destruct (N.eqb_spec x (key a)) as [->|Hne].
  - apply mem_map_iff. exists a. split; [|reflexivity].
    apply filter_In. split; [exact Ha|apply N.eqb_refl].
  - apply not_true_is_false. intros H. apply mem_map_iff in H.
    destruct H as (y & Hy & ->). apply filter_In in Hy. destruct Hy as [_ Hy].
    apply N.eqb_eq in Hy. contradiction.
Qed.

(** X5.  When an admin deletes a category, exactly the items of that category
    go with it; the other categories and items, the restaurants and the
    grants stay as they are. *)
Theorem delete_category_cascades (db : database) (c : caller) (k : MenuCategory.t) :
  admin_caller db c = true ->
  In k (menu_categories db) ->
  exists db',
    delete_from schema c on_menu_categories (id_eq on_menu_categories (MenuCategory.id k)) db
    = Ok db' /\
    restaurants db' = restaurants db /\ user_roles db' = user_roles db /\
    (forall x, In x (menu_categories db') <->
               In x (menu_categories db) /\ MenuCategory.id x <> MenuCategory.id k) /\
    (forall i, In i (menu_items db') <->
               In i (menu_items db) /\ MenuItem.category_id i <> MenuCategory.id k).
Proof.
  intros Hadm Hin. eexists. split; [reflexivity|].
  cbn [rows_of on_delete_cascade set_rows cascade_menu_categories
       restaurants user_roles menu_categories menu_items].
  split; [reflexivity|]. split; [reflexivity|]. split.
  - intros x. rewrite filter_In.
    rewrite (admin_targets db c Hadm DELETE on_menu_categories).
    unfold id_eq. cbn [row_id]. rewrite (negb_true_not _ _ (N.eqb_eq _ _)). reflexivity.
  - intros i. rewrite filter_In. apply and_iff_compat_l.
    rewrite (filter_ext _ (fun y => N.eqb (MenuCategory.id y) (MenuCategory.id k)))
      by (intros y; apply (admin_targets db c Hadm DELETE on_menu_categories)).
    rewrite (mem_ids_of_filter MenuCategory.id (menu_categories db) k _ Hin).
    apply (negb_true_not _ _ (N.eqb_eq _ _)).
Qed.

Lemma delete_category_cascades_witness :
  exists db',
    delete_from schema (Authenticated alice) on_menu_categories
                (id_eq on_menu_categories (MenuCategory.id starters)) scenario = Ok db' /\
    restaurants db' = restaurants scenario /\ user_roles db' = user_roles scenario /\
    (forall x, In x (menu_categories db') <->
               In x (menu_categories scenario) /\ MenuCategory.id x <> MenuCategory.id starters) /\
    (forall i, In i (menu_items db') <->
               In i (menu_items scenario) /\
               MenuItem.category_id i <> MenuCategory.id starters).
Proof.
  apply (delete_category_cascades scenario (Authenticated alice) starters).
  - reflexivity.
  - simpl. auto.
Defined.

(** ** What a successful INSERT implies *)

Lemma check_constraints_holds (db db' : database) :
  check_constraints db = Ok db' ->
  primary_keys_ok db = true /\ slug_unique db = true /\ user_roles_unique db = true /\
  foreign_keys_ok db = true.
Proof.
  unfold check_constraints.
  destruct (primary_keys_ok db) eqn:P, (slug_unique db) eqn:S, (user_roles_unique db) eqn:U;
    simpl; try discriminate.
  destruct (foreign_keys_ok db); [auto|discriminate].
Qed.

Lemma distinct_last_fresh {A : Type} (eqb : A -> A -> bool) (l : list A) (x : A) :
  (forall a, eqb a a = true) ->
  distinct eqb (l ++ [x])%list = true -> ~ In x l.
Proof.
  intros Hrefl. induction l as [|a l IH]; simpl; intros Hd Hin; [contradiction|].
  apply andb_true_iff in Hd. destruct Hd as [Hn Hd].
  destruct Hin as [->|Hin]; [|exact (IH Hd Hin)].
  apply negb_true_iff, not_true_iff_false in Hn. apply Hn.
  apply existsb_exists. exists x. split; [apply in_or_app; right; left; reflexivity|].
  apply Hrefl.
Qed.

Lemma required_ok {A : Type} (v : option A) (a : A) : required v = Ok a -> v = Some a.
Proof. destruct v; simpl; [congruence|discriminate]. Qed.

Lemma in_last {A : Type} (l : list A) (x : A) : In x (l ++ [x])%list.
Proof. apply in_or_app. right. left. reflexivity. Qed.

(** X6.  A category can only be inserted under a restaurant that exists and
    an item under a category that exists: whoever the caller and whatever
    the policies, a successful INSERT means the referenced row is there. *)
Theorem insert_needs_parent (cat : catalogue) (c : caller) (now : timestamptz) (fresh : uuid)
    (db db' : database) :
  (forall v, insert_into cat c now fresh on_menu_categories v db = Ok db' ->
     exists r, In r (restaurants db) /\
               MenuCategory.set_restaurant_id v = Some (Restaurant.id r)) /\
  (forall v, insert_into cat c now fresh on_menu_items v db = Ok db' ->
     exists k, In k (menu_categories db) /\
               MenuItem.set_category_id v = Some (MenuCategory.id k)).
Proof.
  split; intros v H; apply insert_into_spec in H; destruct H as (NEW & Hn & _ & -> & Hc);
    apply check_constraints_holds in Hc; destruct Hc as (_ & _ & _ & Hfk);
    unfold foreign_keys_ok in Hfk; cbn in Hfk;
    rewrite !andb_true_iff, !forallb_forall in Hfk; destruct Hfk as [[Hk Hi] _].
  - specialize (Hk NEW (in_last _ NEW)). fold (mem (MenuCategory.restaurant_id NEW)) in Hk.
    apply mem_map_iff in Hk. destruct Hk as (r & Hr & E). exists r. split; [exact Hr|].
    unfold new_row, MenuCategory.new_row in Hn. bind_inv Hn. injection Hn as <-.
    apply required_ok in E0. rewrite E0. cbn in E. congruence.
  - specialize (Hi NEW (in_last _ NEW)). fold (mem (MenuItem.category_id NEW)) in Hi.
    apply mem_map_iff in Hi. destruct Hi as (k & Hk' & E). exists k. split; [exact Hk'|].
    unfold new_row, MenuItem.new_row in Hn. bind_inv Hn. injection Hn as <-.
    apply required_ok in E0. rewrite E0. cbn in E. congruence.
Qed.

(** X7.  A successful INSERT into [restaurants] means that no restaurant had
    the new slug or the new id before, and needs a name and a slug. *)
Theorem insert_restaurant_is_new (cat : catalogue) (c : caller) (now : timestamptz)
    (fresh : uuid) (v : Restaurant.values) (db db' : database) :
  insert_into cat c now fresh on_restaurants v db = Ok db' ->
  exists name slug,
    Restaurant.set_name v = Some name /\ Restaurant.set_slug v = Some slug /\
    (forall r, In r (restaurants db) -> Restaurant.slug r <> slug) /\
    (forall r, In r (restaurants db) ->
               Restaurant.id r <> given (Restaurant.set_id v) fresh).
Proof.
  intros H. apply insert_into_spec in H. destruct H as (NEW & Hn & _ & -> & Hc).
  apply check_constraints_holds in Hc. destruct Hc as (Hpk & Hs & _ & _).
  unfold new_row, Restaurant.new_row in Hn. bind_inv Hn. injection Hn as <-.
  exists a, a0. apply required_ok in E, E0.
  split; [exact E|]. split; [exact E0|].
  unfold slug_unique in Hs. unfold primary_keys_ok in Hpk. cbn in Hs, Hpk.
  rewrite !andb_true_iff in Hpk. destruct Hpk as [[[Hpk _] _] _].
  rewrite map_app in Hs, Hpk. cbn in Hs, Hpk. split.
  - intros r Hr Eq. apply (distinct_last_fresh String.eqb _ _ String.eqb_refl Hs).
    rewrite <- Eq. apply in_map. exact Hr.
  - intros r Hr Eq. apply (distinct_last_fresh N.eqb _ _ N.eqb_refl Hpk).
    rewrite <- Eq. apply in_map. exact Hr.
Qed.

Lemma insert_restaurant_is_new_witness :
  exists name slug,
    Restaurant.set_name postdated = Some name /\ Restaurant.set_slug postdated = Some slug /\
    (forall r, In r (restaurants scenario) -> Restaurant.slug r <> slug) /\
    (forall r, In r (restaurants scenario) ->
               Restaurant.id r <> given (Restaurant.set_id postdated) 3%N).
Proof.
  apply (insert_restaurant_is_new schema (Authenticated alice) 1000 3%N postdated scenario
           (state_after insert_postdated scenario)).
  reflexivity.
Defined.

Lemma insert_needs_parent_witness :
  exists k, In k (menu_categories scenario) /\
            MenuItem.set_category_id refund = Some (MenuCategory.id k).
Proof.
  apply (proj2 (insert_needs_parent schema (Authenticated alice) 2000 103%N scenario
                  (state_after insert_refund scenario)) refund).
  reflexivity.
Defined.

(** * Further properties of the public pages *)

(** X8.  Insert and look up: for every caller, the menu page of the slug of
    an active restaurant finds that restaurant, given that slugs are
    unique; it reports no error and shows neither the skeleton nor
    "Restaurant not found". *)
Theorem active_restaurant_is_found (db : database) (c : caller) (r : Restaurant.t) :
  slug_unique db = true ->
  In r (restaurants db) ->
  Restaurant.is_active r = Some true ->
  Restaurant.slug r <> "" ->
  RestaurantMenu.restaurant (RestaurantMenu.visit schema c db (Restaurant.slug r)) = Some r /\
  RestaurantMenu.toasts (RestaurantMenu.visit schema c db (Restaurant.slug r)) = [] /\
  RestaurantMenu.console (RestaurantMenu.visit schema c db (Restaurant.slug r)) = [] /\
  exists sections,
    RestaurantMenu.render (RestaurantMenu.visit schema c db (Restaurant.slug r))
    = RestaurantMenu.Menu r sections.
Proof.
  intros Hs Hin Ha Hne. unfold RestaurantMenu.visit.
  destruct (String.eqb_spec (Restaurant.slug r) "") as [E|_]; [contradiction|].
  destruct (fetch_finds c db r Hs Hin Ha RestaurantMenu.initial) as (Hr & Hl & Ht & Hc).
  repeat split; try assumption.
  unfold RestaurantMenu.render. rewrite Hl, Hr. eexists. reflexivity.
Qed.

Lemma active_restaurant_is_found_witness :
  RestaurantMenu.restaurant (RestaurantMenu.visit schema Anonymous scenario "pizza-palace")
  = Some pizza_palace.
Proof.
  apply (active_restaurant_is_found scenario Anonymous pizza_palace).
  - reflexivity.
  - simpl. auto.
  - reflexivity.
  - discriminate.
Defined.

(** X9.  The list page and the menu page agree.  With unique slugs, a
    restaurant whose slug is not empty is on the list a caller is shown
    exactly when the menu page, given that restaurant's slug as its
    route parameter, finds that restaurant for the same caller.  The
    step from the path of a link to the route parameter is the router's
    and is not part of this statement. *)
Theorem listed_exactly_when_found (db : database) (c : caller) (st : Restaurants.state)
    (r : Restaurant.t) :
  slug_unique db = true ->
  Restaurant.slug r <> "" ->
  (In r (Restaurants.restaurants (Restaurants.fetchRestaurants schema c db st)) <->
   RestaurantMenu.restaurant (RestaurantMenu.visit schema c db (Restaurant.slug r)) = Some r).
Proof.
  intros Hs Hne.
  rewrite (visit_restaurant_iff c db (Restaurant.slug r) Hs Hne r).
  unfold Restaurants.fetchRestaurants. cbn [Restaurants.restaurants].
  rewrite In_order_by, In_select_restaurants, equals_true_iff.
  split.
  - intros (Hin & _ & Ha). auto.
  - intros (Hin & _ & Ha). auto.
Qed.

Lemma listed_exactly_when_found_witness :
  RestaurantMenu.restaurant (RestaurantMenu.visit schema (Authenticated bob) scenario
                                                  (Restaurant.slug pizza_palace))
  = Some pizza_palace.
Proof.
  apply (proj1 (listed_exactly_when_found scenario (Authenticated bob) Restaurants.initial
                  pizza_palace eq_refl ltac:(discriminate))).
  simpl. auto.
Defined.

(** ** Order of what the pages show *)

Section OrderBy.
Context {A : Type} (le : A -> A -> bool).
Hypothesis le_total : forall a b, le a b = true \/ le b a = true.

Lemma insert_sorted_perm (x : A) (l : list A) : Permutation (insert_sorted le x l) (x :: l).
Proof.
  induction l as [|y l IH]; simpl; [reflexivity|].
  destruct (le x y); [reflexivity|].
  rewrite IH. apply perm_swap.
Qed.

Lemma order_by_perm (l : list A) : Permutation (order_by le l) l.
Proof.
  unfold order_by. induction l as [|x l IH]; simpl; [reflexivity|].
  rewrite insert_sorted_perm. constructor. exact IH.
Qed.

Lemma insert_sorted_sorted (x : A) (l : list A) :
  Sorted (fun a b => le a b = true) l ->
  Sorted (fun a b => le a b = true) (insert_sorted le x l).
Proof.
  induction l as [|y l IH]; simpl; intros Hs.
  - repeat constructor.
  - destruct (le x y) eqn:E.
    + constructor; [exact Hs|]. constructor. exact E.
    + inversion Hs as [|? ? Hl Hhd]; subst. constructor; [apply IH; exact Hl|].
      destruct l as [|z l]; simpl.
      * constructor. destruct (le_total x y) as [H|H]; congruence.
      * destruct (le x z).
        -- constructor. destruct (le_total x y) as [H|H]; congruence.
        -- inversion Hhd; subst. constructor. assumption.
Qed.

Lemma order_by_sorted (l : list A) : Sorted (fun a b => le a b = true) (order_by le l).
Proof.
  unfold order_by. induction l as [|x l IH]; simpl; [constructor|].
  apply insert_sorted_sorted. exact IH.
Qed.
End OrderBy.

Lemma nulls_last_total (a b : option Z) : nulls_last a b = true \/ nulls_last b a = true.
Proof.
  destruct a as [x|], b as [y|]; simpl; auto.
  destruct (Z.leb_spec x y), (Z.leb_spec y x); auto. lia.
Qed.

(** Rows a query lets through on its own account need no admin. *)
Lemma select_from_public (c : caller) (db : database) (t : table) (where_ : row t -> bool) :
  (forall x, where_ x = true -> rls_using schema db c SELECT x = true) ->
  select_from schema c db t where_ = filter where_ (rows_of db t).
Proof.
  intros H. unfold select_from. apply filter_ext. intros x.
  destruct (where_ x) eqn:W; [|apply andb_false_r].
  rewrite (H x W). reflexivity.
Qed.

(** X10.  The menu page lists the categories by [display_order], rows without
    one last, and the items likewise; for every caller the categories are
    the active categories of the restaurant found, each once, and the
    items are the available items of those categories, each once. *)
Theorem menu_is_ordered (db : database) (c : caller) (slug : string) :
  Sorted (fun a b => nulls_last (MenuCategory.display_order a)
                                (MenuCategory.display_order b) = true)
         (RestaurantMenu.categories (RestaurantMenu.visit schema c db slug)) /\
  Sorted (fun a b => nulls_last (MenuItem.display_order a) (MenuItem.display_order b) = true)
         (RestaurantMenu.menuItems (RestaurantMenu.visit schema c db slug)) /\
  (forall r,
     RestaurantMenu.restaurant (RestaurantMenu.visit schema c db slug) = Some r ->
     Permutation
       (RestaurantMenu.categories (RestaurantMenu.visit schema c db slug))
       (filter (fun k => N.eqb (MenuCategory.restaurant_id k) (Restaurant.id r) &&
                         equals_true (MenuCategory.is_active k))
               (menu_categories db)) /\
     Permutation
       (RestaurantMenu.menuItems (RestaurantMenu.visit schema c db slug))
       (filter (fun i =>
                  mem (MenuItem.category_id i)
                      (map MenuCategory.id
                           (RestaurantMenu.categories
                              (RestaurantMenu.visit schema c db slug))) &&
                  equals_true (MenuItem.is_available i))
               (menu_items db))).
Proof.
  unfold RestaurantMenu.visit. destruct (String.eqb slug "").
  { cbn. split; [constructor|]. split; [constructor|]. intros r Hr. discriminate. }
  unfold RestaurantMenu.fetchRestaurantData.
  destruct (single _) as [x|e]; cbn [RestaurantMenu.categories RestaurantMenu.menuItems
                                     RestaurantMenu.restaurant RestaurantMenu.initial].
  - split; [apply order_by_sorted; intros; apply nulls_last_total|].
    split; [apply order_by_sorted; intros; apply nulls_last_total|].
    intros r Hr. injection Hr as <-. split.
    + rewrite order_by_perm.
      rewrite (select_from_public c db on_menu_categories); [reflexivity|].
      intros k Hk. apply andb_true_iff in Hk. destruct Hk as [_ Hk].
      rewrite rls_select_menu_categories, Hk. reflexivity.
    + rewrite order_by_perm at 1.
      rewrite (select_from_public c db on_menu_items); [reflexivity|].
      intros i Hi. apply andb_true_iff in Hi. destruct Hi as [_ Hi].
      rewrite rls_select_menu_items, Hi. reflexivity.
  - cbn. split; [constructor|]. split; [constructor|]. intros r Hr. discriminate.
Qed.

(** X11.  The list page shows the active restaurants, each once, ordered by
    name. *)
Theorem restaurant_list_is_ordered (db : database) (c : caller) (st : Restaurants.state) :
  Sorted (fun a b => String.leb (Restaurant.name a) (Restaurant.name b) = true)
         (Restaurants.restaurants (Restaurants.fetchRestaurants schema c db st)) /\
  Permutation (Restaurants.restaurants (Restaurants.fetchRestaurants schema c db st))
              (filter (fun r => equals_true (Restaurant.is_active r)) (restaurants db)) /\
  Restaurants.loading (Restaurants.fetchRestaurants schema c db st) = false.
Proof.
  unfold Restaurants.fetchRestaurants. cbn [Restaurants.restaurants Restaurants.loading].
  split; [|split; [|reflexivity]].
  - apply order_by_sorted. intros a b. apply String.leb_total.
  - rewrite order_by_perm.
    rewrite (select_from_public c db on_restaurants); [reflexivity|].
    intros r Hr. rewrite rls_select_restaurants, Hr. reflexivity.
Qed.

(** ** The diet filter and what the menu page renders *)

Lemma filter_split_perm {A : Type} (p : A -> bool) (l : list A) :
  Permutation (filter p l ++ filter (fun x => negb (p x)) l) l.
Proof.
  induction l as [|a l IH]; simpl; [constructor|].
  destruct (p a); simpl.
  - constructor. exact IH.
  - apply Permutation_sym. apply Permutation_cons_app. apply Permutation_sym. exact IH.
Qed.

Lemma filter_filter {A : Type} (p q : A -> bool) (l : list A) :
  filter p (filter q l) = filter (fun x => q x && p x) l.
Proof.
  induction l as [|a l IH]; simpl; [reflexivity|].
  destruct (q a); simpl; [destruct (p a)|]; rewrite IH; reflexivity.
Qed.

(** X12.  [getCategoryItems]: under "all" it gives the fetched items of the
    category, in their order; "veg" and "non-veg" split these in two:
    together they hold every item of the category exactly once, and no
    item is in both. *)
Theorem diet_filter_partitions (st : RestaurantMenu.state) (categoryId : uuid) :
  RestaurantMenu.getCategoryItems (setDietFilter RestaurantMenu.all st) categoryId
  = filter (fun i => N.eqb (MenuItem.category_id i) categoryId) (RestaurantMenu.menuItems st) /\
  Permutation
    (RestaurantMenu.getCategoryItems (setDietFilter RestaurantMenu.veg st) categoryId ++
     RestaurantMenu.getCategoryItems (setDietFilter RestaurantMenu.non_veg st) categoryId)
    (RestaurantMenu.getCategoryItems (setDietFilter RestaurantMenu.all st) categoryId) /\
  (forall i,
     In i (RestaurantMenu.getCategoryItems (setDietFilter RestaurantMenu.veg st) categoryId) ->
     ~ In i (RestaurantMenu.getCategoryItems (setDietFilter RestaurantMenu.non_veg st)
                                             categoryId)).
Proof.
  unfold RestaurantMenu.getCategoryItems, setDietFilter.
  cbn [RestaurantMenu.dietFilter RestaurantMenu.menuItems].
  set (in_cat := fun i : MenuItem.t => N.eqb (MenuItem.category_id i) categoryId).
  set (is_veg := fun i : MenuItem.t =>
                   RestaurantMenu.truthy (MenuItem.is_vegetarian i) ||
                   RestaurantMenu.truthy (MenuItem.is_vegan i)).
  assert (Ea : forall l, filter (fun item : MenuItem.t =>
                 if negb (N.eqb (MenuItem.category_id item) categoryId) then false else true) l
               = filter in_cat l).
  { intros l. apply filter_ext. intros i. unfold in_cat.
    destruct (N.eqb (MenuItem.category_id i) categoryId); reflexivity. }
  assert (Ev : forall l, filter (fun item : MenuItem.t =>
                 if negb (N.eqb (MenuItem.category_id item) categoryId) then false
                 else RestaurantMenu.truthy (MenuItem.is_vegetarian item) ||
                      RestaurantMenu.truthy (MenuItem.is_vegan item)) l
               = filter is_veg (filter in_cat l)).
  { intros l. rewrite filter_filter. apply filter_ext. intros i. unfold in_cat, is_veg.
    destruct (N.eqb (MenuItem.category_id i) categoryId); reflexivity. }
  assert (En : forall l, filter (fun item : MenuItem.t =>
                 if negb (N.eqb (MenuItem.category_id item) categoryId) then false
                 else negb (RestaurantMenu.truthy (MenuItem.is_vegetarian item)) &&
                      negb (RestaurantMenu.truthy (MenuItem.is_vegan item))) l
               = filter (fun i => negb (is_veg i)) (filter in_cat l)).
  { intros l. rewrite filter_filter. apply filter_ext. intros i. unfold in_cat, is_veg.
    destruct (N.eqb (MenuItem.category_id i) categoryId); simpl; [|reflexivity].
    rewrite negb_orb. reflexivity. }
  rewrite Ea, Ev, En. split; [reflexivity|]. split.
  - apply filter_split_perm.
  - intros i Hv Hn. apply filter_In in Hv. apply filter_In in Hn.
    destruct Hv as [_ Hv], Hn as [_ Hn]. rewrite Hv in Hn. discriminate.
Qed.

(** X13.  Whatever diet filter is set, the menu page of a fetched restaurant
    shows nothing that is not public: the restaurant is active, every
    section shown is an active category of it with at least one item,
    and every item shown is an available item of its section's category. *)
Theorem shown_menu_is_public (db : database) (c : caller) (slug : string)
    (d : RestaurantMenu.diet) (r : Restaurant.t)
    (sections : list (MenuCategory.t * list MenuItem.t)) :
  RestaurantMenu.render (setDietFilter d (RestaurantMenu.visit schema c db slug))
  = RestaurantMenu.Menu r sections ->
  In r (restaurants db) /\ Restaurant.is_active r = Some true /\ Restaurant.slug r = slug /\
  forall k items, In (k, items) sections ->
    items <> [] /\
    In k (menu_categories db) /\ MenuCategory.is_active k = Some true /\
    MenuCategory.restaurant_id k = Restaurant.id r /\
    forall i, In i items ->
      In i (menu_items db) /\ MenuItem.is_available i = Some true /\
      MenuItem.category_id i = MenuCategory.id k.
Proof.
  unfold RestaurantMenu.render, setDietFilter.
  cbn [RestaurantMenu.loading RestaurantMenu.restaurant RestaurantMenu.categories].
  destruct (RestaurantMenu.loading _); [discriminate|].
  destruct (RestaurantMenu.restaurant (RestaurantMenu.visit schema c db slug)) as [r'|] eqn:Hr;
    [|discriminate].
  intros H. injection H as -> <-.
  assert (Hvisit : forall k, In k (RestaurantMenu.categories (RestaurantMenu.visit schema c db slug)) ->
            In k (menu_categories db) /\ MenuCategory.is_active k = Some true /\
            MenuCategory.restaurant_id k = Restaurant.id r).
  { intros k Hk. revert Hk Hr. unfold RestaurantMenu.visit.
    destruct (String.eqb slug ""); [intros []|].
    intros Hk Hr. apply fetch_categories in Hk; [|reflexivity..].
    destruct Hk as (Hin & Ha & r0 & Hr0 & E). rewrite Hr in Hr0. injection Hr0 as <-. auto. }
  assert (Hitems : forall i, In i (RestaurantMenu.menuItems (RestaurantMenu.visit schema c db slug)) ->
            In i (menu_items db) /\ MenuItem.is_available i = Some true).
  { intros i. unfold RestaurantMenu.visit.
    destruct (String.eqb slug ""); [intros []|].
    intros Hi. apply fetch_items in Hi; [|reflexivity..].
    destruct Hi as (Hin & Ha & _). auto. }
  assert (Hrest : In r (restaurants db) /\ Restaurant.is_active r = Some true /\
                  Restaurant.slug r = slug).
  { revert Hr. unfold RestaurantMenu.visit.
    destruct (String.eqb slug ""); [discriminate|].
    intros Hr. apply fetch_restaurant in Hr; [|reflexivity]. tauto. }
  destruct Hrest as (R1 & R2 & R3). repeat split; try assumption.
  - intros E. apply filter_In in H. destruct H as [_ H]. subst items.
    cbn in H. discriminate.
  - apply filter_In in H. destruct H as [H _]. apply in_map_iff in H.
    destruct H as (k' & E & Hk). injection E as -> _. apply (Hvisit k Hk).
  - apply filter_In in H. destruct H as [H _]. apply in_map_iff in H.
    destruct H as (k' & E & Hk). injection E as -> _. apply (Hvisit k Hk).
  - apply filter_In in H. destruct H as [H _]. apply in_map_iff in H.
    destruct H as (k' & E & Hk). injection E as -> _. apply (Hvisit k Hk).
  - apply filter_In in H. destruct H as [H _]. apply in_map_iff in H.
    destruct H as (k' & E & Hk). injection E as _ <-.
    apply filter_In in H0. apply Hitems. apply H0.
  - apply filter_In in H. destruct H as [H _]. apply in_map_iff in H.
    destruct H as (k' & E & Hk). injection E as _ <-.
    apply filter_In in H0. apply Hitems. apply H0.
  - apply filter_In in H. destruct H as [H _]. apply in_map_iff in H.
    destruct H as (k' & E & Hk). injection E as -> <-.
    apply filter_In in H0. destruct H0 as [_ H0].
    destruct (N.eqb_spec (MenuItem.category_id i) (MenuCategory.id k)) as [E|]; [exact E|].
    discriminate.
Qed.

Lemma shown_menu_is_public_witness :
  In pizza_palace (restaurants scenario) /\
  Restaurant.is_active pizza_palace = Some true /\
  Restaurant.slug pizza_palace = "pizza-palace" /\
  forall k items, In (k, items) [(starters, [garlic_bread])] ->
    items <> [] /\
    In k (menu_categories scenario) /\ MenuCategory.is_active k = Some true /\
    MenuCategory.restaurant_id k = Restaurant.id pizza_palace /\
    forall i, In i items ->
      In i (menu_items scenario) /\ MenuItem.is_available i = Some true /\
      MenuItem.category_id i = MenuCategory.id k.
Proof.
  apply (shown_menu_is_public scenario Anonymous "pizza-palace" RestaurantMenu.veg).
  reflexivity.
Defined.

(** ** The admin page's gate *)

Lemma single_inl_iff {A : Type} (l : list A) :
  (exists a, single l = inl a) <-> List.length l = 1%nat.
Proof.
  destruct l as [|a [|b l]]; simpl; split.
  - intros (a & H). discriminate.
  - discriminate.
  - reflexivity.
  - intros _. exists a. reflexivity.
  - intros (x & H). discriminate.
  - discriminate.
Qed.

(** X14.  [checkAdminAccess] lets a caller in exactly when the caller is signed
    in and [user_roles] holds exactly one admin grant of theirs: the gate
    implies [has_role], but somebody with two admin grants (for two
    restaurants, say) passes [has_role] and is turned away by the page.
    An anonymous caller is sent to "/auth", a refused one to "/". *)
Theorem gate_needs_one_admin_grant (db : database) (c : caller) :
  (Admin.isAdmin (Admin.checkAdminAccess schema c db Admin.initial) = true <->
   exists u, c = Authenticated u /\
             List.length (filter (fun g => N.eqb (UserRole.user_id g) u &&
                                           app_role_eqb (UserRole.role g) admin)
                                 (user_roles db)) = 1%nat) /\
  (Admin.isAdmin (Admin.checkAdminAccess schema c db Admin.initial) = true ->
   admin_caller db c = true /\
   Admin.navigated_to (Admin.checkAdminAccess schema c db Admin.initial) = None) /\
  (Admin.isAdmin (Admin.checkAdminAccess schema c db Admin.initial) = false ->
   Admin.navigated_to (Admin.checkAdminAccess schema c db Admin.initial)
   = Some (match c with Anonymous => "/auth" | Authenticated _ => "/" end)) /\
  Admin.loading (Admin.checkAdminAccess schema c db Admin.initial) = false.
Proof.
  destruct c as [|u]; cbn [Admin.checkAdminAccess auth_uid].
  { cbn. repeat split; try discriminate. intros (u & H & _). discriminate. }
  assert (Esel : select_from schema (Authenticated u) db on_user_roles
                   (fun g => N.eqb (UserRole.user_id g) u &&
                             app_role_eqb (UserRole.role g) admin)
                 = filter (fun g => N.eqb (UserRole.user_id g) u &&
                                    app_role_eqb (UserRole.role g) admin) (user_roles db)).
  { apply (select_from_public (Authenticated u) db on_user_roles). intros g Hg.
    apply andb_true_iff in Hg. destruct Hg as [Hg _].
    rewrite rls_select_user_roles, Hg. reflexivity. }
  rewrite Esel.
  set (mine := filter _ (user_roles db)).
  assert (Hlen : List.length (map UserRole.role mine) = List.length mine)
    by apply length_map.
  destruct (single (map UserRole.role mine)) as [a|e] eqn:S; cbn.
  - assert (H1 : List.length mine = 1%nat).
    { rewrite <- Hlen. apply single_inl_iff. eauto. }
    split; [|split; [|split]]; try reflexivity; try discriminate.
    + split; [intros _; exists u; auto|reflexivity].
    + intros _. split; [|reflexivity].
      destruct mine as [|g [|]] eqn:M; try discriminate.
      assert (Hg : In g mine) by (rewrite M; left; reflexivity).
      apply filter_In in Hg. destruct Hg as [Hin Hg].
      apply andb_true_iff in Hg. destruct Hg as [Hu Hr].
      apply N.eqb_eq in Hu. apply app_role_eqb_eq in Hr.
      apply has_role_iff. exists g. repeat split; congruence.
  - split; [|split; [|split]]; try reflexivity; try discriminate.
    split; [discriminate|]. intros (u' & E & H1). injection E as <-.
    assert (exists a, single (map UserRole.role mine) = inl a) as (a & Ha)
      by (apply single_inl_iff; rewrite Hlen; exact H1).
    rewrite Ha in S. discriminate.
Qed.

(** ** The dietary checkboxes *)

(** X15.  Ticking or clearing "Vegetarian" or "Vegan", or ticking "Non-Veg",
    leaves a form in which vegetarian and vegan are not both set,
    whatever it held before; no click ever sets both where they were not
    both set, so a new item's form never has both.  "Non-Veg" shows
    ticked exactly when neither is set, and clearing it changes nothing. *)
Theorem dietary_boxes_exclude (f : MenuItemsAdmin.form) :
  (forall box checked,
     box <> MenuItemsAdmin.box_spicy ->
     (box = MenuItemsAdmin.box_nonveg -> checked = true) ->
     MenuItemsAdmin.is_vegetarian (MenuItemsAdmin.onCheckedChange box checked f) &&
     MenuItemsAdmin.is_vegan (MenuItemsAdmin.onCheckedChange box checked f) = false) /\
  (forall events,
     MenuItemsAdmin.is_vegetarian f && MenuItemsAdmin.is_vegan f = false ->
     MenuItemsAdmin.is_vegetarian (MenuItemsAdmin.clicks events f) &&
     MenuItemsAdmin.is_vegan (MenuItemsAdmin.clicks events f) = false) /\
  (forall events,
     MenuItemsAdmin.is_vegetarian (MenuItemsAdmin.clicks events MenuItemsAdmin.blank) &&
     MenuItemsAdmin.is_vegan (MenuItemsAdmin.clicks events MenuItemsAdmin.blank) = false) /\
  MenuItemsAdmin.onCheckedChange MenuItemsAdmin.box_nonveg false f = f /\
  MenuItemsAdmin.shown_checked MenuItemsAdmin.box_nonveg
    (MenuItemsAdmin.onCheckedChange MenuItemsAdmin.box_nonveg true f) = true.
Proof.
  assert (Hstep : forall g box checked,
            MenuItemsAdmin.is_vegetarian g && MenuItemsAdmin.is_vegan g = false ->
            MenuItemsAdmin.is_vegetarian (MenuItemsAdmin.onCheckedChange box checked g) &&
            MenuItemsAdmin.is_vegan (MenuItemsAdmin.onCheckedChange box checked g) = false).
  { intros g [] [] H; cbn; try exact H; try reflexivity; apply andb_false_r. }
  assert (Hrun : forall events g,
            MenuItemsAdmin.is_vegetarian g && MenuItemsAdmin.is_vegan g = false ->
            MenuItemsAdmin.is_vegetarian (MenuItemsAdmin.clicks events g) &&
            MenuItemsAdmin.is_vegan (MenuItemsAdmin.clicks events g) = false).
  { unfold MenuItemsAdmin.clicks. induction events as [|[box checked] events IH];
      intros g H; simpl; [exact H|]. apply IH. apply Hstep. exact H. }
  split; [|split; [|split; [|split]]].
  - intros [] checked Hb Hn; cbn; try congruence; try apply andb_false_r.
    rewrite (Hn eq_refl). reflexivity.
  - intros events H. apply Hrun. exact H.
  - intros events. apply Hrun. reflexivity.
  - reflexivity.
  - reflexivity.
Qed.

(** ** The dish dialog *)

(** X16.  The quantity of the dish dialog never drops below one: after any
    sequence of clicks it is at least 1, every "added to cart" toast names
    a quantity of at least 1, and opening a dish starts again from 1. *)
Theorem quantity_stays_positive (events : list DishDialog.event) :
  1 <= DishDialog.quantity (DishDialog.run events DishDialog.initial) /\
  (forall q n, In (q, n) (DishDialog.added (DishDialog.run events DishDialog.initial)) ->
               1 <= q) /\
  (forall item st, DishDialog.quantity (DishDialog.step (DishDialog.click_card item) st) = 1).
Proof.
  assert (Hinv : forall evs st,
            1 <= DishDialog.quantity st ->
            (forall q n, In (q, n) (DishDialog.added st) -> 1 <= q) ->
            1 <= DishDialog.quantity (DishDialog.run evs st) /\
            (forall q n, In (q, n) (DishDialog.added (DishDialog.run evs st)) -> 1 <= q)).
  { unfold DishDialog.run. induction evs as [|e evs IH]; intros st Hq Ha; simpl; [auto|].
    apply IH.
    - unfold DishDialog.step. destruct e, (DishDialog.selectedItem st); cbn; lia.
    - intros q n. unfold DishDialog.step.
      destruct e, (DishDialog.selectedItem st); cbn; try apply Ha.
      intros Hin. apply in_app_or in Hin. destruct Hin as [Hin|[E|[]]]; [exact (Ha q n Hin)|].
      injection E as <- _. exact Hq. }
  destruct (Hinv events DishDialog.initial) as [H1 H2]; [cbn; lia|intros q n []|].
  repeat split; assumption || reflexivity.
Qed.

(** * Further properties of the admin pages *)

(** ** The restaurants tab *)

(** X17.  Create and look up: when [handleSubmit] with no restaurant being
    edited succeeds, the database holds a new active restaurant with the
    name and slug of the form, stamped with the time of the insert; the
    caller is an admin, the dialog closes, the form is blank again, the
    reloaded list shows the restaurant, and every visitor finds it under
    its slug. *)
Theorem created_restaurant_goes_public (db db' : database) (c : caller)
    (now : timestamptz) (fresh : uuid) (st : RestaurantsAdmin.state) :
  RestaurantsAdmin.editingRestaurant st = None ->
  RestaurantsAdmin.slug (RestaurantsAdmin.formData st) <> "" ->
  insert_into schema c now fresh on_restaurants
              (RestaurantsAdmin.sent (RestaurantsAdmin.formData st)) db = Ok db' ->
  exists st' r,
    RestaurantsAdmin.handleSubmit schema c now fresh db st = (db', st') /\
    admin_caller db c = true /\
    restaurants db' = (restaurants db ++ [r])%list /\
    Restaurant.id r = fresh /\
    Restaurant.name r = RestaurantsAdmin.name (RestaurantsAdmin.formData st) /\
    Restaurant.slug r = RestaurantsAdmin.slug (RestaurantsAdmin.formData st) /\
    Restaurant.is_active r = Some true /\
    Restaurant.created_at r = Some now /\ Restaurant.updated_at r = Some now /\
    In r (RestaurantsAdmin.restaurants st') /\
    RestaurantsAdmin.dialogOpen st' = false /\
    RestaurantsAdmin.formData st' = RestaurantsAdmin.blank /\
    RestaurantsAdmin.toasts st'
    = (RestaurantsAdmin.toasts st ++ [toast_success "Restaurant created successfully"])%list /\
    forall visitor,
      RestaurantMenu.restaurant (RestaurantMenu.visit schema visitor db' (Restaurant.slug r))
      = Some r.
Proof.
  intros Hed Hslug Hins. unfold RestaurantsAdmin.handleSubmit. rewrite Hed, Hins.
  pose proof (insert_into_spec _ _ _ _ _ _ _ _ Hins) as (NEW & Hn & Hw & Hdb & Hc).
  cbn in Hn. injection Hn as Hn.
  assert (Hrows : restaurants db' = (restaurants db ++ [NEW])%list) by (subst db'; reflexivity).
  assert (Hin : In NEW (restaurants db')) by (rewrite Hrows; apply in_last).
  apply check_constraints_holds in Hc. destruct Hc as (_ & Hs & _ & _).
  eexists. exists NEW. split; [reflexivity|].
  split. { rewrite rls_with_check_write in Hw by discriminate. exact Hw. }
  split; [exact Hrows|].
  subst NEW. cbn [Restaurant.id Restaurant.name Restaurant.slug Restaurant.is_active
                  Restaurant.created_at Restaurant.updated_at given RestaurantsAdmin.sent
                  Restaurant.set_id Restaurant.set_is_active Restaurant.set_created_at
                  Restaurant.set_updated_at].
  repeat (split; [reflexivity|]).
  split.
  { cbn [RestaurantsAdmin.fetchRestaurants RestaurantsAdmin.restaurants].
    apply In_order_by. apply In_select_restaurants. split; [exact Hin|]. split; [|reflexivity].
    left. reflexivity. }
  repeat (split; [reflexivity|]).
  intros visitor. unfold RestaurantMenu.visit.
  match goal with |- context [String.eqb ?s ""] =>
    destruct (String.eqb_spec s "") as [E|_]; [exfalso; apply Hslug; exact E|] end.
  apply (fetch_finds visitor db' _ Hs Hin eq_refl).
Qed.

Lemma created_restaurant_goes_public_witness :
  exists st' r,
    RestaurantsAdmin.handleSubmit schema (Authenticated alice) 3000 4%N scenario alice_creates
    = (state_after (insert_into schema (Authenticated alice) 3000 4%N on_restaurants
                                (RestaurantsAdmin.sent new_form) scenario) scenario, st') /\
    admin_caller scenario (Authenticated alice) = true /\
    restaurants (state_after (insert_into schema (Authenticated alice) 3000 4%N on_restaurants
                                          (RestaurantsAdmin.sent new_form) scenario) scenario)
    = (restaurants scenario ++ [r])%list /\
    Restaurant.id r = 4%N.
Proof.
  destruct (created_restaurant_goes_public scenario
              (state_after (insert_into schema (Authenticated alice) 3000 4%N on_restaurants
                                        (RestaurantsAdmin.sent new_form) scenario) scenario)
              (Authenticated alice) 3000 4%N alice_creates)
    as (st' & r & H1 & H2 & H3 & H4 & _).
  - reflexivity.
  - discriminate.
  - reflexivity.
  - exists st', r. auto.
Defined.

Lemma Forall2_same_length_map {A : Type} (P : A -> A -> Prop) (f : A -> A) (l l' : list A) :
  Forall2 P l l' -> (forall x y, In x l -> P x y -> y = f x) -> l' = map f l.
Proof.
  intros H. induction H as [|x y l l' Hxy H IH]; intros Hf; simpl; [reflexivity|].
  f_equal.
  - apply Hf; [left; reflexivity|exact Hxy].
  - apply IH. intros a b Ha. apply Hf. right. exact Ha.
Qed.

Lemma handleSubmit_saves cat c now fresh db (st : RestaurantsAdmin.state) r db' :
  RestaurantsAdmin.editingRestaurant st = Some r ->
  update_set cat c now on_restaurants (RestaurantsAdmin.sent (RestaurantsAdmin.formData st))
             (id_eq on_restaurants (Restaurant.id r)) db = Ok db' ->
  fst (RestaurantsAdmin.handleSubmit cat c now fresh db st) = db'.
Proof.
  intros He Hu. unfold RestaurantsAdmin.handleSubmit. rewrite He, Hu. reflexivity.
Qed.

(** X18.  Edit and save: when an admin opens a restaurant in the edit dialog
    and saves it unchanged, and the update succeeds, that one row is
    rewritten and nothing else.  The row keeps id, name, slug, colours,
    contact e-mail, [is_active] and [created_at], gets [updated_at]
    stamped, and a missing description, logo, banner, phone or address
    becomes the empty string. *)
Theorem edit_and_save_unchanged (db db' : database) (c : caller) (now : timestamptz)
    (fresh : uuid) (st : RestaurantsAdmin.state) (r : Restaurant.t) :
  primary_keys_ok db = true ->
  In r (restaurants db) ->
  admin_caller db c = true ->
  update_set schema c now on_restaurants
             (RestaurantsAdmin.sent (RestaurantsAdmin.formData (RestaurantsAdmin.handleEdit r st)))
             (id_eq on_restaurants (Restaurant.id r)) db = Ok db' ->
  fst (RestaurantsAdmin.handleSubmit schema c now fresh db (RestaurantsAdmin.handleEdit r st))
  = db' /\
  restaurants db'
  = map (fun x => if N.eqb (Restaurant.id x) (Restaurant.id r) then resaved now r else x)
        (restaurants db) /\
  menu_categories db' = menu_categories db /\ menu_items db' = menu_items db /\
  user_roles db' = user_roles db.
Proof.
  intros Hpk Hin Hadm Hup. split.
  { apply (handleSubmit_saves schema c now fresh db (RestaurantsAdmin.handleEdit r st) r db');
      [reflexivity|exact Hup]. }
  pose proof (update_set_spec _ _ _ _ _ _ _ _ Hup) as HF.
  unfold update_set in Hup.
  destruct (update_rows schema db c now on_restaurants _ _ (rows_of db on_restaurants))
    as [rows|e]; simpl in Hup; [|discriminate].
  apply check_constraints_ok in Hup. subst db'.
  cbn [set_rows rows_of restaurants menu_categories menu_items user_roles] in *.
  repeat split.
  apply (Forall2_same_length_map _ _ _ _ HF). intros x y Hx. unfold row_updated.
  rewrite (admin_targets db c Hadm UPDATE on_restaurants). unfold id_eq. cbn [row_id].
  destruct (N.eqb_spec (Restaurant.id x) (Restaurant.id r)) as [E|]; [|auto].
  unfold primary_keys_ok in Hpk. rewrite !andb_true_iff in Hpk.
  destruct Hpk as [[[Hpk _] _] _].
  rewrite (distinct_inj N.eqb Restaurant.id (restaurants db) N.eqb_refl Hpk x r Hx Hin E).
  intros (a & Ha & -> & _). cbn in Ha. injection Ha as <-. reflexivity.
Qed.

Lemma edit_and_save_unchanged_witness :
  restaurants (state_after
                 (update_set schema (Authenticated alice) 3000 on_restaurants
                    (RestaurantsAdmin.sent
                       (RestaurantsAdmin.formData
                          (RestaurantsAdmin.handleEdit closed_kitchen RestaurantsAdmin.initial)))
                    (id_eq on_restaurants (Restaurant.id closed_kitchen)) scenario)
                 scenario)
  = map (fun x => if N.eqb (Restaurant.id x) (Restaurant.id closed_kitchen)
                  then resaved 3000 closed_kitchen else x)
        (restaurants scenario).
Proof.
  apply (edit_and_save_unchanged scenario _ (Authenticated alice) 3000 0%N
           RestaurantsAdmin.initial closed_kitchen).
  - reflexivity.
  - simpl. auto.
  - reflexivity.
  - reflexivity.
Defined.

(** X19.  The tab answers a caller who is no admin with "updated
    successfully" and "deleted successfully" although the database is
    left as it was: the policies let the UPDATE and the DELETE find no
    row, which is no error.  Only the INSERT is refused: the page shows
    the failure and leaves the dialog as it is. *)
Theorem refused_writes_report_success (db : database) (c : caller)
    (st : RestaurantsAdmin.state) :
  admin_caller db c = false ->
  check_constraints db = Ok db ->
  (forall now fresh r,
     RestaurantsAdmin.editingRestaurant st = Some r ->
     fst (RestaurantsAdmin.handleSubmit schema c now fresh db st) = db /\
     RestaurantsAdmin.toasts (snd (RestaurantsAdmin.handleSubmit schema c now fresh db st))
     = (RestaurantsAdmin.toasts st ++ [toast_success "Restaurant updated successfully"])%list) /\
  (forall id,
     fst (RestaurantsAdmin.handleDelete schema c db true id st) = db /\
     RestaurantsAdmin.toasts (snd (RestaurantsAdmin.handleDelete schema c db true id st))
     = (RestaurantsAdmin.toasts st ++ [toast_success "Restaurant deleted successfully"])%list) /\
  (forall now fresh,
     RestaurantsAdmin.editingRestaurant st = None ->
     RestaurantsAdmin.handleSubmit schema c now fresh db st
     = (db, RestaurantsAdmin.say
              (toast_failure row_security_violation "Failed to save restaurant") st)).
Proof.
  intros Hna Hok. split; [|split].
  - intros now fresh r Hed. unfold RestaurantsAdmin.handleSubmit. rewrite Hed.
    assert (E : update_set schema c now on_restaurants
                  (RestaurantsAdmin.sent (RestaurantsAdmin.formData st))
                  (id_eq on_restaurants (Restaurant.id r)) db = Ok db).
    { unfold update_set. rewrite update_rows_untargeted.
      - cbn [bind]. rewrite (set_rows_same db on_restaurants). exact Hok.
      - intros x _. apply targeted_denied; [exact Hna|discriminate]. }
    rewrite E. split; reflexivity.
  - intros id. unfold RestaurantsAdmin.handleDelete.
    assert (E : delete_from schema c on_restaurants (id_eq on_restaurants id) db = Ok db).
    { pose proof (delete_denied db c Hna on_restaurants (id_eq on_restaurants id)) as D.
      transitivity (Ok (state_after (delete_from schema c on_restaurants
                                       (id_eq on_restaurants id) db) db));
        [reflexivity|rewrite D; reflexivity]. }
    rewrite E. split; reflexivity.
  - intros now fresh Hed. unfold RestaurantsAdmin.handleSubmit. rewrite Hed.
    unfold insert_into. cbn [new_row RestaurantsAdmin.sent Restaurant.new_row bind required
                             Restaurant.set_name Restaurant.set_slug].
    rewrite rls_with_check_write by discriminate. rewrite Hna. reflexivity.
Qed.

Lemma refused_writes_report_success_witness :
  fst (RestaurantsAdmin.handleSubmit schema (Authenticated bob) 3000 4%N scenario bob_edits)
  = scenario /\
  RestaurantsAdmin.toasts
    (snd (RestaurantsAdmin.handleSubmit schema (Authenticated bob) 3000 4%N scenario bob_edits))
  = (RestaurantsAdmin.toasts bob_edits
     ++ [toast_success "Restaurant updated successfully"])%list.
Proof.
  apply (proj1 (refused_writes_report_success scenario (Authenticated bob) bob_edits
                  eq_refl eq_refl) 3000 4%N pizza_palace).
  reflexivity.
Defined.

(** ** The slug input *)

Lemma lower_not_upper (a : ascii) : is_upper (lower a) = false.
Proof. destruct a as [[|] [|] [|] [|] [|] [|] [|] [|]]; reflexivity. Qed.

Lemma lower_keeps_space (a : ascii) : is_space (lower a) = is_space a.
Proof. destruct a as [[|] [|] [|] [|] [|] [|] [|] [|]]; reflexivity. Qed.

Lemma lower_fixed (a : ascii) : is_upper a = false -> lower a = a.
Proof. unfold lower. intros ->. reflexivity. Qed.

Lemma toLowerCase_not_upper (s : string) :
  forallb (fun a => negb (is_upper a)) (list_ascii_of_string (toLowerCase s)) = true.
Proof.
  induction s as [|a s IH]; simpl; [reflexivity|].
  rewrite lower_not_upper, IH. reflexivity.
Qed.

Lemma replace_spaces_clean (s : string) (in_run : bool) :
  forallb (fun a => negb (is_upper a)) (list_ascii_of_string s) = true ->
  forallb clean_char (list_ascii_of_string (replace_spaces in_run s)) = true.
Proof.
  revert in_run. induction s as [|a s IH]; simpl; intros in_run H; [reflexivity|].
  apply andb_true_iff in H. destruct H as [Ha Hs].
  destruct (is_space a) eqn:Sp.
  - destruct in_run; simpl; [apply IH; exact Hs|]. rewrite IH by exact Hs. reflexivity.
  - simpl. unfold clean_char at 1. rewrite Sp, Ha. simpl. apply IH. exact Hs.
Qed.

Lemma clean_is_fixed (s : string) :
  forallb clean_char (list_ascii_of_string s) = true ->
  toLowerCase s = s /\ forall in_run, replace_spaces in_run s = s.
Proof.
  induction s as [|a s IH]; simpl; intros H; [auto|].
  apply andb_true_iff in H. destruct H as [Ha Hs].
  unfold clean_char in Ha. apply andb_true_iff in Ha. destruct Ha as [Sp Up].
  apply negb_true_iff in Sp. apply negb_true_iff in Up.
  destruct (IH Hs) as [IH1 IH2]. split.
  - rewrite lower_fixed by exact Up. rewrite IH1. reflexivity.
  - intros in_run. rewrite Sp, IH2. reflexivity.
Qed.

Lemma replace_spaces_length (s : string) (in_run : bool) :
  (String.length (replace_spaces in_run s) <= String.length s)%nat.
Proof.
  revert in_run. induction s as [|a s IH]; simpl; intros in_run; [lia|].
  destruct (is_space a); [destruct in_run|]; simpl.
  - specialize (IH true). lia.
  - specialize (IH true). lia.
  - specialize (IH false). lia.
Qed.

Lemma toLowerCase_length (s : string) : String.length (toLowerCase s) = String.length s.
Proof. induction s as [|a s IH]; simpl; [reflexivity|]. rewrite IH. reflexivity. Qed.

Lemma lower_ascii (a : ascii) : is_ascii a = true -> is_ascii (lower a) = true.
Proof. destruct a as [[|] [|] [|] [|] [|] [|] [|] [|]]; intros H; try reflexivity; exact H. Qed.

Lemma lower_hyphen (a : ascii) : not_hyphen (lower a) = not_hyphen a.
Proof. destruct a as [[|] [|] [|] [|] [|] [|] [|] [|]]; reflexivity. Qed.

Lemma toLowerCase_ascii (s : string) :
  ascii_text s = true -> ascii_text (toLowerCase s) = true.
Proof.
  unfold ascii_text. induction s as [|a s IH]; simpl; intros H; [reflexivity|].
  apply andb_true_iff in H. destruct H as [Ha Hs].
  rewrite (lower_ascii a Ha), (IH Hs). reflexivity.
Qed.

Lemma replace_spaces_ascii (s : string) (in_run : bool) :
  ascii_text s = true -> ascii_text (replace_spaces in_run s) = true.
Proof.
  unfold ascii_text. revert in_run. induction s as [|a s IH]; simpl; intros in_run H;
    [reflexivity|].
  apply andb_true_iff in H. destruct H as [Ha Hs].
  destruct (is_space a); [destruct in_run|]; simpl.
  - apply IH. exact Hs.
  - apply IH. exact Hs.
  - rewrite Ha. apply IH. exact Hs.
Qed.

Lemma slug_keeps_letters (s : string) (in_run : bool) :
  filter not_hyphen (list_ascii_of_string (replace_spaces in_run (toLowerCase s)))
  = map lower (filter (fun a => negb (is_space a) && not_hyphen a) (list_ascii_of_string s)).
Proof.
  revert in_run. induction s as [|a s IH]; intros in_run; [reflexivity|].
  cbn [toLowerCase replace_spaces list_ascii_of_string filter].
  rewrite lower_keeps_space. destruct (is_space a) eqn:Sp; cbn [negb andb].
  - destruct in_run; [apply IH|].
    cbn [list_ascii_of_string filter].
    change (not_hyphen "-"%char) with false. cbv iota. apply IH.
  - cbn [list_ascii_of_string filter]. rewrite lower_hyphen.
    destruct (not_hyphen a); cbn [map]; rewrite IH; reflexivity.
Qed.

(** X20.  Typing ASCII text into the slug input leaves the form with
    every other field as it was and the rest of the page state
    untouched, and with a slug of ASCII text without white space and
    without capital letters, no longer than what was typed, whose
    characters other than hyphens are, in order, the lower-cased
    characters of what was typed that are neither white space nor
    hyphens.  A value that already has neither white space nor capital
    letters is kept as it is, so normalising twice changes nothing
    more. *)
Theorem slug_input_normalises (value : string) (st : RestaurantsAdmin.state) :
  ascii_text value = true ->
  let f := RestaurantsAdmin.formData st in
  let f' := RestaurantsAdmin.formData (RestaurantsAdmin.change_slug value st) in
  RestaurantsAdmin.change_slug value st
  = RestaurantsAdmin.mkstate
      (RestaurantsAdmin.restaurants st) (RestaurantsAdmin.loading st)
      (RestaurantsAdmin.dialogOpen st) (RestaurantsAdmin.editingRestaurant st)
      (RestaurantsAdmin.uploading st)
      (RestaurantsAdmin.mkform
         (RestaurantsAdmin.name f) (RestaurantsAdmin.slug f') (RestaurantsAdmin.description f)
         (RestaurantsAdmin.logo_url f) (RestaurantsAdmin.banner_image_url f)
         (RestaurantsAdmin.theme_color f) (RestaurantsAdmin.background_color f)
         (RestaurantsAdmin.contact_phone f) (RestaurantsAdmin.address f))
      (RestaurantsAdmin.toasts st) /\
  ascii_text (RestaurantsAdmin.slug f') = true /\
  forallb clean_char (list_ascii_of_string (RestaurantsAdmin.slug f')) = true /\
  (String.length (RestaurantsAdmin.slug f') <= String.length value)%nat /\
  filter not_hyphen (list_ascii_of_string (RestaurantsAdmin.slug f'))
  = map lower (filter (fun a => negb (is_space a) && not_hyphen a)
                      (list_ascii_of_string value)) /\
  (forallb clean_char (list_ascii_of_string value) = true ->
   RestaurantsAdmin.slug f' = value) /\
  RestaurantsAdmin.change_slug (RestaurantsAdmin.slug f') st
  = RestaurantsAdmin.change_slug value st.
Proof.
  intros Hascii f f'. subst f f'.
  assert (Hc : forallb clean_char (list_ascii_of_string (slug_of_input value)) = true).
  { unfold slug_of_input. apply replace_spaces_clean. apply toLowerCase_not_upper. }
  assert (Hfix : forall v, forallb clean_char (list_ascii_of_string v) = true ->
                           slug_of_input v = v).
  { intros v H. unfold slug_of_input. destruct (clean_is_fixed v H) as [E1 E2].
    rewrite E1. apply E2. }
  destruct st as [rs ld dlg ed up [n sl de lo ba th bg ph ad] ts].
  cbn [RestaurantsAdmin.formData RestaurantsAdmin.change_slug RestaurantsAdmin.setFormData
       RestaurantsAdmin.slug RestaurantsAdmin.name RestaurantsAdmin.description
       RestaurantsAdmin.logo_url RestaurantsAdmin.banner_image_url
       RestaurantsAdmin.theme_color RestaurantsAdmin.background_color
       RestaurantsAdmin.contact_phone RestaurantsAdmin.address
       RestaurantsAdmin.restaurants RestaurantsAdmin.loading RestaurantsAdmin.dialogOpen
       RestaurantsAdmin.editingRestaurant RestaurantsAdmin.uploading
       RestaurantsAdmin.toasts].
  split; [reflexivity|]. split; [|split; [exact Hc|split; [|split; [|split]]]].
  - unfold slug_of_input. apply replace_spaces_ascii, toLowerCase_ascii. exact Hascii.
  - unfold slug_of_input.
    pose proof (replace_spaces_length (toLowerCase value) false) as L.
    rewrite toLowerCase_length in L. exact L.
  - unfold slug_of_input. apply slug_keeps_letters.
  - apply Hfix.
  - unfold RestaurantsAdmin.change_slug. rewrite (Hfix _ Hc). reflexivity.
Qed.

Lemma slug_input_normalises_witness :
  ascii_text "Pizza  Palace" = true /\
  RestaurantsAdmin.formData (RestaurantsAdmin.change_slug "Pizza  Palace" alice_creates)
  = RestaurantsAdmin.mkform "Taco Town" "pizza-palace" "" "" "" (Some "#FF6B35")
                            (Some "#FFF5F0") "" "" /\
  forallb clean_char
    (list_ascii_of_string
       (RestaurantsAdmin.slug
          (RestaurantsAdmin.formData
             (RestaurantsAdmin.change_slug "Pizza  Palace" alice_creates)))) = true.
Proof.
  split; [reflexivity|]. split; [reflexivity|].
  pose proof (slug_input_normalises "Pizza  Palace" alice_creates eq_refl) as H.
  cbv zeta in H. exact (proj1 (proj2 (proj2 H))).
Defined.

(** ** Images *)

(** X21.  The policies on [storage.objects] are coarser than those on the
    tables: with row-level security enabled there, a signed-in caller
    who, for lack of an admin grant, can write no row of any table can
    still upload, replace and delete every image of the bucket.  An
    anonymous caller can only read the bucket, and no policy lets anyone
    touch an object of another bucket. *)
Theorem images_open_to_every_signed_in_caller (db : database) (u : uuid) :
  has_role db (Some u) admin = false ->
  (forall (t : table) (cmd : command) (r : row t), cmd <> SELECT ->
     rls_using schema db (Authenticated u) cmd r = false /\
     rls_with_check schema db (Authenticated u) cmd r = false) /\
  (forall cmd o, Storage.in_menu_images o = true ->
     Storage.allowed true (Authenticated u) cmd o = true) /\
  (forall cmd o, Storage.allowed true Anonymous cmd o = true <->
                 cmd = SELECT /\ Storage.in_menu_images o = true) /\
  (forall c cmd o, Storage.in_menu_images o = false -> Storage.allowed true c cmd o = false).
Proof.
  intros Hna. split; [|split; [|split]].
  - intros t cmd r Hc. rewrite rls_using_write, rls_with_check_write by exact Hc.
    simpl. rewrite Hna. auto.
  - intros cmd o Ho. destruct cmd; cbn; rewrite Ho; reflexivity.
  - intros cmd o. destruct cmd; cbn; destruct (Storage.in_menu_images o); cbn;
      split; try discriminate; try (intros [? ?]; discriminate); auto.
  - intros c cmd o Ho. destruct cmd, c; cbn; rewrite Ho; reflexivity.
Qed.

Lemma images_open_to_every_signed_in_caller_witness :
  Storage.allowed true (Authenticated bob) DELETE
                  (Storage.mkobject "menu-images" "logo.png" 2048 "image/png") = true.
Proof.
  apply (images_open_to_every_signed_in_caller scenario bob).
  - reflexivity.
  - reflexivity.
Defined.

(** X22.  The check the admin pages make before an upload never stops a file
    the bucket would take: a file within the bucket's size limit and of
    one of its four image types passes.  The check is the looser one: a
    file it passes is at most 5 MiB and has a type starting with
    "image/", which image/svg+xml does although the bucket refuses it. *)
Theorem upload_check_is_looser_than_bucket (f : file) :
  (forall path,
     Storage.within_limits Storage.menu_images
       (Storage.mkobject "menu-images" path (file_size f) (file_type f)) = true ->
     RestaurantsAdmin.refused f = None) /\
  (RestaurantsAdmin.refused f = None <->
   file_size f <= Storage.file_size_limit Storage.menu_images /\
   String.prefix "image/" (file_type f) = true) /\
  (RestaurantsAdmin.refused (mkfile "logo.svg" "image/svg+xml" 1024) = None /\
   forall path,
     Storage.within_limits Storage.menu_images
       (Storage.mkobject "menu-images" path 1024 "image/svg+xml") = false).
Proof.
  assert (Hiff : RestaurantsAdmin.refused f = None <->
                 file_size f <= Storage.file_size_limit Storage.menu_images /\
                 String.prefix "image/" (file_type f) = true).
  { unfold RestaurantsAdmin.refused. cbn [Storage.file_size_limit Storage.menu_images].
    change (5 * 1024 * 1024) with 5242880.
    destruct (String.prefix "image/" (file_type f)); cbn [negb].
    - destruct (Z.ltb_spec 5242880 (file_size f)).
      + split; [discriminate|]. intros [H1 _]. lia.
      + split; [|reflexivity]. intros _. split; [lia|reflexivity].
    - split; [discriminate|]. intros [_ H]. discriminate. }
  split; [|split; [exact Hiff|split; reflexivity]].
  intros path H. apply Hiff. unfold Storage.within_limits in H.
  cbn [Storage.size Storage.mime_type Storage.file_size_limit Storage.allowed_mime_types
       Storage.menu_images] in *.
  apply andb_true_iff in H. destruct H as [Hs Hm]. split; [apply Z.leb_le; exact Hs|].
  apply existsb_exists in Hm. destruct Hm as (m & Hin & Hm).
  apply String.eqb_eq in Hm. rewrite Hm.
  destruct Hin as [<-|[<-|[<-|[<-|[]]]]]; reflexivity.
Qed.

(** ** What the restaurants tab never does *)

Lemma Forall2_in_r {A : Type} (P : A -> A -> Prop) (l l' : list A) (y : A) :
  Forall2 P l l' -> In y l' -> exists x, In x l /\ P x y.
Proof.
  intros H. induction H as [|a b l l' Hab H IH]; simpl; intros Hy; [contradiction|].
  destruct Hy as [<-|Hy].
  - exists a. auto.
  - destruct (IH Hy) as (x & Hx & Hp). exists x. auto.
Qed.

(** X23.  The form of the restaurants tab has no field for [is_active],
    [created_at], the contact e-mail or the id.  So whoever the caller
    and whatever the form holds, after [handleSubmit] every restaurant is
    either one that was there, with these four columns as they were, or a
    new one that is active and created just now: the tab can neither hide
    a restaurant nor bring a hidden one back.  After [handleDelete] every
    restaurant is one that was there. *)
Theorem tab_never_hides (cat : catalogue) (c : caller) (db : database)
    (st : RestaurantsAdmin.state) :
  (forall now fresh r',
     In r' (restaurants (fst (RestaurantsAdmin.handleSubmit cat c now fresh db st))) ->
     (exists r, In r (restaurants db) /\ same_standing r r') \/
     (Restaurant.is_active r' = Some true /\ Restaurant.created_at r' = Some now /\
      Restaurant.contact_email r' = None)) /\
  (forall confirmed id r',
     In r' (restaurants (fst (RestaurantsAdmin.handleDelete cat c db confirmed id st))) ->
     In r' (restaurants db)).
Proof.
  assert (Hsame : forall r, same_standing r r) by (intros r; repeat split).
  split.
  - intros now fresh r'. unfold RestaurantsAdmin.handleSubmit.
    destruct (RestaurantsAdmin.editingRestaurant st) as [e|].
    + destruct (update_set cat c now on_restaurants _ _ db) as [db'|err] eqn:U;
        cbn [fst]; intros Hin; left; [|eauto].
      apply update_set_spec in U.
      destruct (Forall2_in_r _ _ _ r' U Hin) as (r & Hr & Hup). exists r. split; [exact Hr|].
      unfold row_updated in Hup.
      destruct (@targeted cat db c UPDATE on_restaurants _ r); [|subst r'; apply Hsame].
      destruct Hup as (a & Ha & -> & _). cbn in Ha. injection Ha as <-. repeat split.
    + destruct (insert_into cat c now fresh on_restaurants _ db) as [db'|err] eqn:I;
        cbn [fst]; intros Hin; [|left; eauto].
      apply insert_into_spec in I. destruct I as (NEW & Hn & _ & -> & _).
      cbn in Hn. injection Hn as <-. cbn [set_rows rows_of restaurants] in Hin.
      apply in_app_or in Hin. destruct Hin as [Hin|[<-|[]]]; [left; eauto|].
      right. repeat split.
  - intros confirmed id r'. unfold RestaurantsAdmin.handleDelete.
    destruct confirmed; cbn [fst]; [|auto].
    unfold delete_from. cbn [fst on_delete_cascade cascade_restaurants cascade_menu_categories
                             set_rows restaurants rows_of].
    intros Hin. apply filter_In in Hin. apply Hin.
Qed.

(** * Prices *)







Lemma store_price_fits (p : numeric_literal) :
  (exists x, store_price p = Ok x) <-> numeric_10_2 p <> None.
Proof.
  unfold store_price. destruct (numeric_10_2 p) as [y|]; split.
  - discriminate.
  - intros _. eauto.
  - intros (x & H). discriminate.
  - congruence.
Qed.



(** *** The constraints do not look at prices *)

















